(** * Morphing Christmas tree: particle placement and interpolation

    A shallow embedding of the scene component ([MorphingSystem],
    [ChristmasTree]) and of the overlay's spin button ([Overlay]).

    Number model.  JavaScript numbers are modelled as real numbers [R]:
    [+], [*], [/], [Math.cos], [Math.sin], [Math.sqrt], [Math.acos] and
    [Math.PI] are the real operations.  Rounding and NaN are outside the
    model.  In particular a store into a [Float32Array] keeps the number
    as computed, where the program rounds it to binary32: what an array
    holds is the computed value up to that rounding.  Bounds on generated
    quantities are therefore stated on what a generator returns and on
    what the loop computes for a slot; where a value is read from a
    generated array (the ribbon example), it is the computed value.

    Randomness.  [Math.random()] reads the next element of a sequence of
    draws; a computation that draws is a function of that sequence and of
    a cursor, and returns the advanced cursor with its result. *)

From Stdlib Require Import Reals Lra Psatz List Lia Bool Arith.
From Stdlib Require String.
Import ListNotations.

Open Scope R_scope.

(** ** Random draws *)

Module Random.

Definition Draws := nat -> R.

Definition Rand (A : Type) : Type := Draws -> nat -> A * nat.

Definition ret {A} (a : A) : Rand A := fun _ k => (a, k).

Definition bind {A B} (m : Rand A) (f : A -> Rand B) : Rand B :=
  fun draws k => let (a, k') := m draws k in f a draws k'.

(** [Math.random()] *)
Definition Math_random : Rand R := fun draws k => (draws k, S k).

(** every draw is in [0, 1) *)
Definition unit_draws (draws : Draws) : Prop :=
  forall k, 0 <= draws k < 1.

Definition run {A} (m : Rand A) (draws : Draws) (k : nat) : A :=
  fst (m draws k).

End Random.

Import Random.

Notation "x <- m ;; k" := (bind m (fun x => k))
  (at level 61, m at next level, right associativity).

(** ** three.js [MathUtils] *)

Module MathUtils.

(** [lerp(x, y, t) = (1 - t) * x + t * y] *)
Definition lerp (x y t : R) : R := (1 - t) * x + t * y.

(** [clamp(value, min, max) = Math.max(min, Math.min(max, value))] *)
Definition clamp (value min max : R) : R := Rmax min (Rmin max value).

End MathUtils.

Import MathUtils.

(** [Math.pow(x, y)] for a base [x >= 0] and an exponent [y > 0], the only
    use in the source ([Math.pow(Math.random(), 0.8)]): [pow(0, y) = 0],
    and [pow(x, y) = exp (y * ln x)] for [x > 0]. *)
Definition Math_pow (x y : R) : R :=
  if Rle_dec x 0 then 0 else Rpower x y.

Record Vector3 : Type := mkVector3 { vx : R; vy : R; vz : R }.

Record Euler : Type := mkEuler { ex : R; ey : R; ez : R }.

(** ** Configuration *)

Definition FOLIAGE_COUNT : nat := 2200.
Definition RIBBON_PARTICLE_COUNT : nat := 500.
Definition BAUBLE_COUNT : nat := 120.
Definition GIFT_COUNT : nat := 35.
Definition COOKIE_COUNT : nat := 35.

Definition TREE_HEIGHT : R := 9.5.
Definition TREE_RADIUS : R := 3.8.

(** ** MorphingSystem *)

(** What [generatePositions(i)] returns; [rotation] is optional. *)
Record Placement : Type := mkPlacement {
  tree : Vector3;
  scatter : Vector3;
  scale : R;
  rotation : option Euler
}.

(** A [Float32Array]: a fixed-length array of numbers, zero at creation.
    A store outside the array is ignored.  The program rounds a stored
    number to binary32; [store] keeps it as computed (see the number
    model above). *)
Definition Float32Array (n : nat) : list R := repeat 0 n.

Fixpoint store {A} (l : list A) (i : nat) (v : A) : list A :=
  match l, i with
  | [], _ => []
  | _ :: l', O => v :: l'
  | a :: l', S i' => a :: store l' i' v
  end.

Definition load (l : list R) (i : nat) : R := nth i l 0.

Record Data : Type := mkData {
  treePositions : list R;
  scatterPositions : list R;
  scales : list R;
  speeds : list R;
  phases : list R;
  treeRotations : list R
}.

Definition set_treePositions (d : Data) (i : nat) (v : R) : Data :=
  mkData (store (treePositions d) i v) (scatterPositions d) (scales d)
         (speeds d) (phases d) (treeRotations d).

Definition set_scatterPositions (d : Data) (i : nat) (v : R) : Data :=
  mkData (treePositions d) (store (scatterPositions d) i v) (scales d)
         (speeds d) (phases d) (treeRotations d).

Definition set_scales (d : Data) (i : nat) (v : R) : Data :=
  mkData (treePositions d) (scatterPositions d) (store (scales d) i v)
         (speeds d) (phases d) (treeRotations d).

Definition set_speeds (d : Data) (i : nat) (v : R) : Data :=
  mkData (treePositions d) (scatterPositions d) (scales d)
         (store (speeds d) i v) (phases d) (treeRotations d).

Definition set_phases (d : Data) (i : nat) (v : R) : Data :=
  mkData (treePositions d) (scatterPositions d) (scales d)
         (speeds d) (store (phases d) i v) (treeRotations d).

Definition set_treeRotations (d : Data) (i : nat) (v : R) : Data :=
  mkData (treePositions d) (scatterPositions d) (scales d)
         (speeds d) (phases d) (store (treeRotations d) i v).

(** The six arrays of the [useMemo] block, as allocated. *)
Definition allocate (count : nat) : Data :=
  mkData (Float32Array (count * 3)) (Float32Array (count * 3))
         (Float32Array count) (Float32Array count) (Float32Array count)
         (Float32Array (count * 3)).

Section Generation.

Variable generatePositions : nat -> Rand Placement.
Variable baseScale : R.

(** One turn of the generation loop, for particle [i]. *)
Definition generate_body (i : nat) (d : Data) : Rand Data :=
  pos <- generatePositions i ;;
  let d := set_treePositions d (i * 3) (vx (tree pos)) in
  let d := set_treePositions d (i * 3 + 1) (vy (tree pos)) in
  let d := set_treePositions d (i * 3 + 2) (vz (tree pos)) in
  let d := set_scatterPositions d (i * 3) (vx (scatter pos)) in
  let d := set_scatterPositions d (i * 3 + 1) (vy (scatter pos)) in
  let d := set_scatterPositions d (i * 3 + 2) (vz (scatter pos)) in
  d <- match rotation pos with
       | Some rot =>
           let d := set_treeRotations d (i * 3) (ex rot) in
           let d := set_treeRotations d (i * 3 + 1) (ey rot) in
           let d := set_treeRotations d (i * 3 + 2) (ez rot) in
           ret d
       | None =>
           r0 <- Math_random ;;
           let d := set_treeRotations d (i * 3) (r0 * PI) in
           r1 <- Math_random ;;
           let d := set_treeRotations d (i * 3 + 1) (r1 * PI) in
           r2 <- Math_random ;;
           let d := set_treeRotations d (i * 3 + 2) (r2 * PI) in
           ret d
       end ;;
  let d := set_scales d i (scale pos * baseScale) in
  r3 <- Math_random ;;
  let d := set_speeds d i (0.5 + r3 * 0.5) in
  r4 <- Math_random ;;
  let d := set_phases d i (r4 * PI * 2) in
  ret d.

(** [for (let i = start; i < start + n; i++)]: [n] turns are left. *)
Fixpoint generate_loop (n i : nat) (d : Data) : Rand Data :=
  match n with
  | O => ret d
  | S n' => d' <- generate_body i d ;; generate_loop n' (S i) d'
  end.

(** The generation loop started on given arrays. *)
Definition generate_into (count : nat) (d : Data) : Rand Data :=
  generate_loop count 0 d.

(** The [useMemo] block: allocate, then fill. *)
Definition data (count : nat) : Rand Data :=
  generate_into count (allocate count).

End Generation.

(** *** One loop turn as draws followed by stores

    The values a turn writes do not depend on the arrays: [generate_row]
    draws them in the order of [generate_body], and [write_row] performs
    the stores. *)

Record Row : Type := mkRow {
  row_tree : Vector3;
  row_scatter : Vector3;
  row_rotation : Euler;
  row_scale : R;
  row_speed : R;
  row_phase : R
}.

Definition generate_row (generatePositions : nat -> Rand Placement)
  (baseScale : R) (i : nat) : Rand Row :=
  pos <- generatePositions i ;;
  rot <- match rotation pos with
         | Some rot => ret rot
         | None =>
             r0 <- Math_random ;;
             r1 <- Math_random ;;
             r2 <- Math_random ;;
             ret (mkEuler (r0 * PI) (r1 * PI) (r2 * PI))
         end ;;
  r3 <- Math_random ;;
  r4 <- Math_random ;;
  ret (mkRow (tree pos) (scatter pos) rot (scale pos * baseScale)
             (0.5 + r3 * 0.5) (r4 * PI * 2)).

Definition store3 (l : list R) (i : nat) (x y z : R) : list R :=
  store (store (store l (i * 3) x) (i * 3 + 1) y) (i * 3 + 2) z.

Definition write_row (i : nat) (r : Row) (d : Data) : Data :=
  mkData
    (store3 (treePositions d) i (vx (row_tree r)) (vy (row_tree r))
            (vz (row_tree r)))
    (store3 (scatterPositions d) i (vx (row_scatter r)) (vy (row_scatter r))
            (vz (row_scatter r)))
    (store (scales d) i (row_scale r))
    (store (speeds d) i (row_speed r))
    (store (phases d) i (row_phase r))
    (store3 (treeRotations d) i (ex (row_rotation r)) (ey (row_rotation r))
            (ez (row_rotation r))).

(** The array lengths of a system of [count] particles. *)
Definition shaped (count : nat) (d : Data) : Prop :=
  length (treePositions d) = (count * 3)%nat /\
  length (scatterPositions d) = (count * 3)%nat /\
  length (scales d) = count /\
  length (speeds d) = count /\
  length (phases d) = count /\
  length (treeRotations d) = (count * 3)%nat.

(** Two arrays of one length that hold the same values below slot [k]. *)
Definition agree (k : nat) (l l' : list R) : Prop :=
  length l = length l' /\
  forall j, (j < k)%nat -> load l j = load l' j.

(** Two data sets that hold the same values for the particles below [i]. *)
Definition agree_data (i : nat) (d d' : Data) : Prop :=
  agree (i * 3) (treePositions d) (treePositions d') /\
  agree (i * 3) (scatterPositions d) (scatterPositions d') /\
  agree i (scales d) (scales d') /\
  agree i (speeds d) (speeds d') /\
  agree i (phases d) (phases d') /\
  agree (i * 3) (treeRotations d) (treeRotations d').

(** *** The per-frame update *)

Definition morphTarget (isAssembled : bool) : R :=
  if isAssembled then 1 else 0.

(** [useRef(isAssembled ? 1 : 0)] *)
Definition initialFactor (isAssembled : bool) : R :=
  if isAssembled then 1 else 0.

(** Per-particle timing offset. *)
Definition particleT (t speed : R) : R :=
  clamp (t * speed + (if Rlt_dec 0.5 t then 0.1 else - 0.1)) 0 1.

Definition smoothT (t speed : R) : R :=
  let p := particleT t speed in p * p * (3 - 2 * p).

(** [tempVec3] after [set], before the hover offset is added. *)
Definition basePosition (d : Data) (t : R) (i : nat) : Vector3 :=
  let ix := (i * 3)%nat in
  let tx := load (treePositions d) ix in
  let ty := load (treePositions d) (ix + 1) in
  let tz := load (treePositions d) (ix + 2) in
  let sx := load (scatterPositions d) ix in
  let sy := load (scatterPositions d) (ix + 1) in
  let sz := load (scatterPositions d) (ix + 2) in
  let s := smoothT t (load (speeds d) i) in
  mkVector3 (lerp sx tx s) (lerp sy ty s) (lerp sz tz s).

(** The stored end states of particle [i]. *)
Definition treePosition (d : Data) (i : nat) : Vector3 :=
  mkVector3 (load (treePositions d) (i * 3))
            (load (treePositions d) (i * 3 + 1))
            (load (treePositions d) (i * 3 + 2)).

Definition scatterPosition (d : Data) (i : nat) : Vector3 :=
  mkVector3 (load (scatterPositions d) (i * 3))
            (load (scatterPositions d) (i * 3 + 1))
            (load (scatterPositions d) (i * 3 + 2)).

(** Everything the arrays hold for particle [i]. *)
Definition particle (d : Data) (i : nat) : Row :=
  mkRow (treePosition d i) (scatterPosition d i)
        (mkEuler (load (treeRotations d) (i * 3))
                 (load (treeRotations d) (i * 3 + 1))
                 (load (treeRotations d) (i * 3 + 2)))
        (load (scales d) i) (load (speeds d) i) (load (phases d) i).

(** What [tempObj] holds when [updateMatrix] composes the instance matrix. *)
Record Transform : Type := mkTransform {
  position : Vector3;
  orientation : Euler;
  scalar : R
}.

Section Frame.

Variable count : nat.
Variable d : Data.
Variable isAssembled : bool.
Variable spinSpeed : R.
Variable randomizeRotation : bool.

Definition instanceTransform (t time : R) (i : nat) : Transform :=
  let ix := (i * 3)%nat in
  let s := smoothT t (load (speeds d) i) in
  let base := basePosition d t i in
  let hoverAmp := lerp 0.5 0.02 s in
  let pos := mkVector3 (vx base)
                       (vy base + sin (time + load (phases d) i) * hoverAmp)
                       (vz base) in
  let rot :=
    if randomizeRotation then
      mkEuler (time * 0.2 * spinSpeed + load (phases d) i)
              (time * 0.1 * spinSpeed + load (phases d) i)
              (time * 0.15 * spinSpeed + load (phases d) i)
    else
      let rTx := load (treeRotations d) ix in
      let rTy := load (treeRotations d) (ix + 1) in
      let rTz := load (treeRotations d) (ix + 2) in
      let scatterRot := time * 0.5 + load (phases d) i in
      mkEuler (lerp scatterRot rTx s) (lerp scatterRot rTy s)
              (lerp scatterRot rTz s) in
  let scalePulse := 1 + sin (time * 2 + load (phases d) i) * 0.05 in
  mkTransform pos rot (load (scales d) i * scalePulse).

(** [for (let i = start; i < start + n; i++) ... setMatrixAt(i, ...)] *)
Fixpoint instance_loop (t time : R) (n i : nat) (mesh : list Transform)
  : list Transform :=
  match n with
  | O => mesh
  | S n' => instance_loop t time n' (S i)
                          (store mesh i (instanceTransform t time i))
  end.

(** The state a frame works on: [factor.current] and [meshRef.current]. *)
Record FrameState : Type := mkFrameState {
  factor : R;
  meshRef : option (list Transform)
}.

Definition useFrame (time delta : R) (st : FrameState) : FrameState :=
  match meshRef st with
  | None => st
  | Some mesh =>
      let target := morphTarget isAssembled in
      let t := lerp (factor st) target (delta * 1.5) in
      mkFrameState t (Some (instance_loop t time count 0 mesh))
  end.

End Frame.

(** ** ChristmasTree *)

Module ChristmasTree.

(** *** Position generators *)

(** 1. Foliage: strict surface shell. *)
Definition generateFoliage (i : nat) : Rand Placement :=
  u0 <- Math_random ;;
  let level := Math_pow u0 0.8 in
  let y := (1 - level) * TREE_HEIGHT - (TREE_HEIGHT / 2) in
  let radiusAtY := TREE_RADIUS * level in
  let thickness := 0.05 in
  u1 <- Math_random ;;
  let rNorm := (1 - thickness) + (u1 * thickness) in
  let r := radiusAtY * rNorm in
  u2 <- Math_random ;;
  let angle := u2 * PI * 2 in
  let tree := mkVector3 (cos angle * r) y (sin angle * r) in
  u3 <- Math_random ;;
  let scatterR := 10 + u3 * 5 in
  u4 <- Math_random ;;
  let theta := u4 * PI * 2 in
  u5 <- Math_random ;;
  let phi := acos (2 * u5 - 1) in
  let scatter := mkVector3 (scatterR * sin phi * cos theta)
                           (scatterR * sin phi * sin theta)
                           (scatterR * cos phi) in
  u6 <- Math_random ;;
  ret (mkPlacement tree scatter (0.5 + u6 * 0.5) None).

(** What [getSpiralPos] returns: no scale yet. *)
Record SpiralPos : Type := mkSpiralPos {
  sp_tree : Vector3;
  sp_scatter : Vector3;
  sp_rotation : Euler
}.

Definition spiral_yNorm (i total : nat) : R :=
  1 - (INR i / (INR total - 1)).

Definition spiral_yClamped (i total : nat) : R :=
  0.1 + (spiral_yNorm i total * 0.85).

Definition spiral_theta (i : nat) (offsetAngle : R) : R :=
  let phi := PI * (3 - sqrt 5) in
  (phi * INR i * 20) + offsetAngle.

(** Helper for generating ornament positions on the surface. *)
Definition getSpiralPos (i total : nat) (offsetAngle : R) : Rand SpiralPos :=
  let yNorm := spiral_yNorm i total in
  let yClamped := spiral_yClamped i total in
  let y := yClamped * TREE_HEIGHT - (TREE_HEIGHT / 2) in
  let r := TREE_RADIUS * (1 - yClamped) in
  let rPush := r + 0.3 in
  let theta := spiral_theta i offsetAngle in
  let tree := mkVector3 (cos theta * rPush) y (sin theta * rPush) in
  let rotation := mkEuler 0 (- theta) 0 in
  u0 <- Math_random ;;
  u1 <- Math_random ;;
  u2 <- Math_random ;;
  let scatter := mkVector3 ((u0 - 0.5) * 15) ((u1 - 0.5) * 15)
                           ((u2 - 0.5) * 15) in
  ret (mkSpiralPos tree scatter rotation).

Definition generateBaubles (i : nat) : Rand Placement :=
  p <- getSpiralPos i BAUBLE_COUNT 0 ;;
  u <- Math_random ;;
  ret (mkPlacement (sp_tree p) (sp_scatter p) (0.3 + u * 0.3)
                   (Some (sp_rotation p))).

Definition generateGifts (i : nat) : Rand Placement :=
  p <- getSpiralPos i GIFT_COUNT 2.5 ;;
  let rotation := sp_rotation p in
  u0 <- Math_random ;;
  let rotation := mkEuler (ex rotation + (u0 - 0.5) * 0.5) (ey rotation)
                          (ez rotation) in
  u1 <- Math_random ;;
  let rotation := mkEuler (ex rotation) (ey rotation)
                          (ez rotation + (u1 - 0.5) * 0.5) in
  u2 <- Math_random ;;
  ret (mkPlacement (sp_tree p) (sp_scatter p) (0.6 + u2 * 0.3)
                   (Some rotation)).

Definition generateCookies (i : nat) : Rand Placement :=
  p <- getSpiralPos i COOKIE_COUNT 4.5 ;;
  let rotation := sp_rotation p in
  let rotation := mkEuler (PI / 2) (ey rotation) (ez rotation) in
  let rotation := mkEuler (ex rotation) (ey rotation) 0 in
  u <- Math_random ;;
  ret (mkPlacement (sp_tree p) (sp_scatter p) (0.5 + u * 0.2)
                   (Some rotation)).

Definition generateRibbon (i : nat) : Rand Placement :=
  let t := INR i / INR RIBBON_PARTICLE_COUNT in
  let loops := 6 in
  let y := (1 - t) * TREE_HEIGHT - (TREE_HEIGHT / 2) in
  let rBase := TREE_RADIUS * t in
  let r := rBase + 0.4 in
  let angle := t * PI * 2 * loops in
  let tree := mkVector3 (cos angle * r) y (sin angle * r) in
  u0 <- Math_random ;;
  let scatterAngle := u0 * PI * 2 in
  u1 <- Math_random ;;
  let scatterR := 8 + u1 * 2 in
  u2 <- Math_random ;;
  let scatter := mkVector3 (cos scatterAngle * scatterR) ((u2 - 0.5) * 5)
                           (sin scatterAngle * scatterR) in
  u3 <- Math_random ;;
  ret (mkPlacement tree scatter (0.15 + u3 * 0.1) None).

(** *** The rendered scene *)

(** The props of one [<MorphingSystem>] element; [baseScale],
    [spinSpeed] and [randomizeRotation] default to 1, 1 and true. *)
Record MorphingSystemProps : Type := mkProps {
  count : nat;
  generatePositions : nat -> Rand Placement;
  baseScale : R;
  spinSpeed : R;
  randomizeRotation : bool
}.

Definition foliage : MorphingSystemProps :=
  mkProps FOLIAGE_COUNT generateFoliage 0.3 0.5 true.

Definition ribbon : MorphingSystemProps :=
  mkProps RIBBON_PARTICLE_COUNT generateRibbon 1 3 true.

Definition baubles : MorphingSystemProps :=
  mkProps BAUBLE_COUNT generateBaubles 1 1 false.

Definition gifts : MorphingSystemProps :=
  mkProps GIFT_COUNT generateGifts 1 1 false.

Definition medallions : MorphingSystemProps :=
  mkProps COOKIE_COUNT generateCookies 1 1 false.

(** The [<MorphingSystem>] children of the scene's group, in order. *)
Definition morphingSystems : list MorphingSystemProps :=
  [foliage; ribbon; baubles; gifts; medallions].

(** The instances drawn by the instanced meshes of the scene. *)
Definition totalInstances : nat :=
  fold_right (fun g n => (count g + n)%nat) 0%nat morphingSystems.

Record PointLight : Type := mkPointLight {
  intensity : R;
  distance : R;
  decay : R
}.

(** The star topper's light. *)
Definition starLight (lightsOn : bool) : PointLight :=
  mkPointLight (if lightsOn then 3 else 0) 15 2.

(** The internal "soul" light. *)
Definition soulLight (lightsOn isAssembled : bool) : PointLight :=
  mkPointLight (if isAssembled && lightsOn then 2 else 0) 8 2.

(** The [<pointLight>] elements of the scene. *)
Definition pointLights (lightsOn isAssembled : bool) : list PointLight :=
  [starLight lightsOn; soulLight lightsOn isAssembled].

(** Distance of a point from the tree's axis (the y axis). *)
Definition axisDistance (v : Vector3) : R :=
  sqrt (vx v * vx v + vz v * vz v).

(** Radius of the cone at height [y]: [TREE_RADIUS] at the bottom
    ([y = - TREE_HEIGHT / 2]), 0 at the tip ([y = TREE_HEIGHT / 2]). *)
Definition coneRadiusAt (y : R) : R :=
  TREE_RADIUS * (TREE_HEIGHT / 2 - y) / TREE_HEIGHT.

(** A point of the cone's surface shell: its height is within the tree,
    and its distance from the axis is between 0.95 and 1.0 times the
    cone's radius at its height. *)
Definition on_shell (p : Vector3) : Prop :=
  (- (TREE_HEIGHT / 2) <= vy p <= TREE_HEIGHT / 2 /\
   - 4.75 <= vy p <= 4.75) /\
  0.95 * coneRadiusAt (vy p) <= axisDistance p <= 1.0 * coneRadiusAt (vy p).

End ChristmasTree.

(** ** Overlay: the spin button *)

Module Overlay.

Section SpinButton.

(** The owner of the rotation speed is the overlay's parent; the
    overlay sees the current value as a prop and a setter. *)
Variable AppState : Type.
Variable rotationSpeed : AppState -> R.
Variable setRotationSpeed : R -> AppState -> AppState.

(** [onClick={() => setRotationSpeed(rotationSpeed > 0 ? 0 : 0.5)}] *)
Definition spin_onClick (st : AppState) : AppState :=
  setRotationSpeed (if Rlt_dec 0 (rotationSpeed st) then 0 else 0.5) st.

End SpinButton.

End Overlay.

(** ** Further parts of the scene *)

(** *** The render loop

    The frame callback of a [MorphingSystem] runs once per rendered
    frame; a frame is given by the clock's elapsed time and the time
    since the frame before. *)

Fixpoint useFrames (count : nat) (d : Data) (isAssembled : bool)
  (spinSpeed : R) (randomizeRotation : bool) (frames : list (R * R))
  (st : FrameState) : FrameState :=
  match frames with
  | [] => st
  | (time, delta) :: rest =>
      useFrames count d isAssembled spinSpeed randomizeRotation rest
                (useFrame count d isAssembled spinSpeed randomizeRotation
                          time delta st)
  end.

(** Distance of a point from the origin. *)
Definition norm3 (v : Vector3) : R :=
  sqrt (vx v * vx v + vy v * vy v + vz v * vz v).

(** *** The star's outline *)

Module Star.

Inductive PathCommand : Type :=
| MoveTo (x y : R)
| LineTo (x y : R)
| ClosePath.

Definition points : nat := 5.
Definition outerRadius : R := 0.8.
Definition innerRadius : R := 0.4.

(** The vertex computed in turn [i] of the outline's loop. *)
Definition vertex (i : nat) : R * R :=
  let r := if Nat.eqb (i mod 2) 0 then outerRadius else innerRadius in
  let a := (INR i / INR (points * 2)) * PI * 2 in
  (cos (a + PI / 2) * r, sin (a + PI / 2) * r).

(** [for (let i = start; i < start + n; i++)] over the shape's path. *)
Fixpoint outline_loop (n i : nat) (shape : list PathCommand)
  : list PathCommand :=
  match n with
  | O => shape
  | S n' =>
      let (x, y) := vertex i in
      outline_loop n' (S i)
        (shape ++ [if Nat.eqb i 0 then MoveTo x y else LineTo x y])
  end.

(** The shape handed to the extrusion. *)
Definition shape : list PathCommand :=
  outline_loop (points * 2) 0 [] ++ [ClosePath].

End Star.

(** *** Star and text animation *)

(** [Vector3.lerp(v, alpha)]: [this.x += (v.x - this.x) * alpha], and the
    same for [y] and [z]. *)
Definition Vector3_lerp (p v : Vector3) (alpha : R) : Vector3 :=
  mkVector3 (vx p + (vx v - vx p) * alpha)
            (vy p + (vy v - vy p) * alpha)
            (vz p + (vz v - vz p) * alpha).

Definition starTargetPos : Vector3 := mkVector3 0 (TREE_HEIGHT / 2 + 0.4) 0.
Definition starScatterPos : Vector3 := mkVector3 0 10 0.
Definition textTargetPos : Vector3 := mkVector3 0 (TREE_HEIGHT / 2 + 2) 0.
Definition textScatterPos : Vector3 := mkVector3 0 15 0.

(** The star's part of the scene's frame callback, on a mounted star. *)
Definition animateStar (isAssembled : bool) (t : R) (star : Transform)
  : Transform :=
  let alpha := if isAssembled then 0.05 else 0.02 in
  let pos := Vector3_lerp (position star)
               (if isAssembled then starTargetPos else starScatterPos)
               alpha in
  let rot := mkEuler (ex (orientation star)) (ey (orientation star) + 0.01)
                     (ez (orientation star)) in
  let scale := 1 + sin (t * 3) * 0.1 in
  mkTransform pos rot scale.

Section SceneFrame.

(** [Object3D.lookAt]: the orientation of an object at a position that
    faces a target; it is the framework's. *)
Variable lookAt : Vector3 -> Vector3 -> Euler.

(** The text's part of the frame callback, on a mounted text group. *)
Definition animateText (isAssembled : bool) (t : R) (camera : Vector3)
  (text : Transform) : Transform :=
  let pos := Vector3_lerp (position text)
               (if isAssembled then textTargetPos else textScatterPos)
               0.05 in
  let rot := lookAt pos camera in
  let pos := mkVector3 (vx pos) (vy pos + sin (t * 2) * 0.005) (vz pos) in
  mkTransform pos rot (scalar text).

(** [starRef.current] and [textGroupRef.current]. *)
Record SceneRefs : Type := mkSceneRefs {
  starRef : option Transform;
  textGroupRef : option Transform
}.

(** The scene's frame callback. *)
Definition sceneFrame (isAssembled : bool) (t : R) (camera : Vector3)
  (refs : SceneRefs) : SceneRefs :=
  mkSceneRefs
    (match starRef refs with
     | Some star => Some (animateStar isAssembled t star)
     | None => None
     end)
    (match textGroupRef refs with
     | Some text => Some (animateText isAssembled t camera text)
     | None => None
     end).

End SceneFrame.

(** The star over a run of frames, given by their clock times. *)
Fixpoint animateStarFrames (isAssembled : bool) (times : list R)
  (star : Transform) : Transform :=
  match times with
  | [] => star
  | t :: rest => animateStarFrames isAssembled rest
                                   (animateStar isAssembled t star)
  end.

(** *** The overlay's button styling *)

Module OverlayView.

Import String.

Definition buttonClass : string :=
  "group flex flex-col items-center gap-1 transition-all duration-500 ".

Definition activeClass : string := "text-[#FFD700]".
Definition idleClass : string := "text-white/40".

Definition morph_className (isAssembled : bool) : string :=
  (buttonClass ++ (if isAssembled then activeClass else idleClass))%string.

Definition lights_className (lightsOn : bool) : string :=
  (buttonClass ++ (if lightsOn then activeClass else idleClass))%string.

Definition spin_className (rotationSpeed : R) : string :=
  (buttonClass
   ++ (if Rlt_dec 0 rotationSpeed then activeClass else idleClass))%string.

End OverlayView.

(** ** Sample inputs *)

(** A frame state with one mounted instance and the factor at 0. *)
Definition one_instance_frame : FrameState :=
  mkFrameState 0 (Some [mkTransform (mkVector3 0 0 0) (mkEuler 0 0 0) 1]).

(** Arrays for two particles that hold 7 everywhere. *)
Definition stale_arrays : Data :=
  mkData (repeat 7 6) (repeat 7 6) (repeat 7 2) (repeat 7 2) (repeat 7 2)
         (repeat 7 6).

(** [Math.random()] returning 0 at every call. *)
Definition zero_draws : Draws := fun _ => 0.

(** [Math.random()] returning 1/32 at every call. *)
Definition low_draws : Draws := fun _ => 1 / 32.

(** The ribbon group's arrays when every draw is 0. *)
Definition ribbon_data : Data :=
  run (data ChristmasTree.generateRibbon 1 RIBBON_PARTICLE_COUNT)
      zero_draws 0.

(** One particle with tree position (1, 0, 0), scatter position (0, 0, 0),
    scale 2, speed 1 and a stored rotation. *)
Definition one_particle_data : Data :=
  mkData [1; 0; 0] [0; 0; 0] [2] [1] [0] [0.5; 0.25; 0].

(** * Properties *)

(** ** Interpolation helpers *)

Lemma lerp_at_0 (x y : R) : lerp x y 0 = x.
Proof. unfold lerp; ring. Qed.

Lemma lerp_at_1 (x y : R) : lerp x y 1 = y.
Proof. unfold lerp; ring. Qed.

Lemma clamp_bounds (v lo hi : R) : lo <= hi -> lo <= clamp v lo hi <= hi.
Proof.
  intros Hle; unfold clamp; split.
  - apply Rmax_l.
  - apply Rmax_lub; [exact Hle | apply Rmin_l].
Qed.

Lemma clamp_below (v lo hi : R) : lo <= hi -> v <= lo -> clamp v lo hi = lo.
Proof.
  intros Hle Hv; unfold clamp.
  rewrite (Rmin_right hi v) by lra.
  apply Rmax_left; exact Hv.
Qed.

Lemma clamp_above (v lo hi : R) : lo <= hi -> hi <= v -> clamp v lo hi = hi.
Proof.
  intros Hle Hv; unfold clamp.
  rewrite (Rmin_left hi v) by lra.
  apply Rmax_right; exact Hle.
Qed.

Lemma clamp_inside (v lo hi : R) : lo <= v <= hi -> clamp v lo hi = v.
Proof.
  intros [Hlo Hhi]; unfold clamp.
  rewrite (Rmin_right hi v) by lra.
  apply Rmax_right; exact Hlo.
Qed.

Lemma clamp_monotone (v w lo hi : R) :
  v <= w -> clamp v lo hi <= clamp w lo hi.
Proof.
  intros Hvw; unfold clamp.
  apply Rle_max_compat_l, Rle_min_compat_l; exact Hvw.
Qed.

(** The cubic [p * p * (3 - 2 * p)] on the unit interval. *)
Lemma smoothstep_bounds (p : R) :
  0 <= p <= 1 -> 0 <= p * p * (3 - 2 * p) <= 1.
Proof.
  intros [H0 H1]; split.
  - apply Rmult_le_pos; [apply Rmult_le_pos; assumption | lra].
  - assert (E : 1 - p * p * (3 - 2 * p) = (1 - p) * (1 - p) * (1 + 2 * p))
      by ring.
    assert (0 <= (1 - p) * (1 - p) * (1 + 2 * p)).
    { apply Rmult_le_pos; [apply Rmult_le_pos; lra | lra]. }
    lra.
Qed.

Lemma smoothstep_monotone (p q : R) :
  0 <= p -> p <= q -> q <= 1 ->
  p * p * (3 - 2 * p) <= q * q * (3 - 2 * q).
Proof.
  intros H0 Hpq H1.
  assert (E : q * q * (3 - 2 * q) - p * p * (3 - 2 * p)
              = (q - p) * (3 * (q + p) - 2 * (q * q + q * p + p * p)))
    by ring.
  assert (Hqq : q * q <= q) by nra.
  assert (Hpp : p * p <= p) by nra.
  assert (Hqp : q * p <= p) by nra.
  assert (0 <= (q - p) * (3 * (q + p) - 2 * (q * q + q * p + p * p))).
  { apply Rmult_le_pos; lra. }
  lra.
Qed.

Lemma particleT_bounds (t speed : R) : 0 <= particleT t speed <= 1.
Proof. unfold particleT; apply clamp_bounds; lra. Qed.

Lemma particleT_at_0 (speed : R) : particleT 0 speed = 0.
Proof.
  unfold particleT.
  destruct (Rlt_dec 0.5 0) as [H | _]; [lra |].
  apply clamp_below; lra.
Qed.

Lemma smoothT_at_0 (speed : R) : smoothT 0 speed = 0.
Proof. unfold smoothT; rewrite particleT_at_0; ring. Qed.

Lemma particleT_at_1 (speed : R) :
  particleT 1 speed = clamp (speed + 0.1) 0 1.
Proof.
  unfold particleT.
  destruct (Rlt_dec 0.5 1) as [_ | H]; [| lra].
  f_equal; ring.
Qed.

(** ** C2: the scattered end state *)

(** C2. At morph factor 0 the base position computed in the frame loop
    (before the hover offset) is the particle's stored scatter position,
    for every particle of every data set and every stored speed, so in
    particular for the speeds in [0.5, 1]. *)
Theorem basePosition_scattered (d : Data) (i : nat) :
  basePosition d 0 i = scatterPosition d i.
Proof.
  unfold basePosition, scatterPosition.
  rewrite smoothT_at_0, !lerp_at_0.
  reflexivity.
Qed.

(** ** C3: the morph factor *)

Lemma lerp_factor_step (f target a : R) :
  0 <= a <= 1 -> 0 <= f <= 1 -> (target = 0 \/ target = 1) ->
  0 <= lerp f target a <= 1 /\
  Rabs (lerp f target a - target) <= Rabs (f - target).
Proof.
  intros Ha Hf Ht.
  assert (E : lerp f target a - target = (1 - a) * (f - target))
    by (unfold lerp; ring).
  split.
  - unfold lerp; destruct Ht as [-> | ->]; nra.
  - rewrite E, Rabs_mult, (Rabs_pos_eq (1 - a)) by lra.
    pose proof (Rabs_pos (f - target)); nra.
Qed.

Lemma initialFactor_unit (isAssembled : bool) :
  0 <= initialFactor isAssembled <= 1.
Proof. destruct isAssembled; unfold initialFactor; lra. Qed.

(** C3. One frame keeps the morph factor in [0, 1] and does not move it
    away from its target, for a frame time [delta >= 0] with
    [delta * 1.5 <= 1]. *)
Theorem useFrame_factor_in_unit_interval
  (count : nat) (d : Data) (isAssembled : bool) (spinSpeed : R)
  (randomizeRotation : bool) (time delta : R) (st : FrameState) :
  0 <= delta -> delta * 1.5 <= 1 -> 0 <= factor st <= 1 ->
  let st' := useFrame count d isAssembled spinSpeed randomizeRotation
                      time delta st in
  0 <= factor st' <= 1 /\
  Rabs (factor st' - morphTarget isAssembled)
    <= Rabs (factor st - morphTarget isAssembled).
Proof.
  intros Hd0 Hd1 Hf; cbv zeta; unfold useFrame.
  destruct (meshRef st) as [mesh |]; cbn [factor].
  - apply lerp_factor_step; [lra | exact Hf |].
    destruct isAssembled; [right | left]; reflexivity.
  - split; [exact Hf | apply Rle_refl].
Qed.

Lemma useFrame_factor_in_unit_interval_witness :
  (0 <= 1 / 2 /\ 1 / 2 * 1.5 <= 1 /\ 0 <= factor one_instance_frame <= 1) /\
  0 <= factor (useFrame 1 (allocate 1) true 1 true 0 (1 / 2)
                        one_instance_frame) <= 1 /\
  Rabs (factor (useFrame 1 (allocate 1) true 1 true 0 (1 / 2)
                         one_instance_frame) - morphTarget true)
    <= Rabs (factor one_instance_frame - morphTarget true).
Proof.
  assert (H : 0 <= 1 / 2 /\ 1 / 2 * 1.5 <= 1 /\
              0 <= factor one_instance_frame <= 1)
    by (cbn [factor one_instance_frame]; lra).
  split; [exact H |].
  destruct H as (H0 & H1 & Hf).
  exact (useFrame_factor_in_unit_interval 1 (allocate 1) true 1 true 0
                                          (1 / 2) one_instance_frame
                                          H0 H1 Hf).
Defined.

(** ** C4: the point lights *)

Import ChristmasTree.

Lemma starLight_lit (lightsOn : bool) :
  0 < intensity (starLight lightsOn) <-> lightsOn = true.
Proof.
  destruct lightsOn; cbn [intensity starLight]; split; intros H;
    try reflexivity; try lra; discriminate.
Qed.

Lemma soulLight_lit (lightsOn isAssembled : bool) :
  0 < intensity (soulLight lightsOn isAssembled)
  <-> lightsOn = true /\ isAssembled = true.
Proof.
  destruct lightsOn, isAssembled; cbn [intensity soulLight andb]; split;
    try (intros H; lra); try (intros [H1 H2]; discriminate);
    try (intros _; split; reflexivity).
Qed.

(** C4 as stated fails: with the lights on and the tree scattered the
    internal light has intensity 0, so not every point light is lit
    exactly when the toggle is on. *)
Lemma pointLights_not_all_lit_when_on :
  ~ (forall (lightsOn isAssembled : bool) (l : PointLight),
       In l (pointLights lightsOn isAssembled) ->
       (0 < intensity l <-> lightsOn = true)).
Proof.
  intros H.
  assert (Hin : In (soulLight true false) (pointLights true false))
    by (right; left; reflexivity).
  destruct (H true false (soulLight true false) Hin) as [_ Hlit].
  specialize (Hlit eq_refl).
  cbn [intensity soulLight andb] in Hlit; lra.
Qed.

(** C4, amended.  For every combination of [lightsOn] and [isAssembled]:
    the star's light has positive intensity exactly when [lightsOn]; the
    internal light has positive intensity exactly when [lightsOn] and
    [isAssembled]; so a point light of the scene with positive intensity
    implies [lightsOn], and with [lightsOn] false every one is at 0. *)
Theorem pointLights_lit (lightsOn isAssembled : bool) :
  (0 < intensity (starLight lightsOn) <-> lightsOn = true) /\
  (0 < intensity (soulLight lightsOn isAssembled)
   <-> lightsOn = true /\ isAssembled = true) /\
  (forall l, In l (pointLights lightsOn isAssembled) ->
             (0 < intensity l -> lightsOn = true) /\
             (lightsOn = false -> intensity l = 0)).
Proof.
  split; [apply starLight_lit |].
  split; [apply soulLight_lit |].
  intros l [<- | [<- | []]]; split.
  - apply starLight_lit.
  - intros ->; reflexivity.
  - intros H; apply soulLight_lit in H; tauto.
  - intros ->; cbn [intensity soulLight].
    rewrite andb_false_r; reflexivity.
Qed.

Lemma pointLights_lit_witness :
  In (soulLight true true) (pointLights true true) /\
  0 < intensity (soulLight true true) /\ true = true.
Proof.
  assert (Hin : In (soulLight true true) (pointLights true true))
    by (right; left; reflexivity).
  assert (Hpos : 0 < intensity (soulLight true true))
    by (cbn [intensity soulLight andb]; lra).
  split; [exact Hin |]; split; [exact Hpos |].
  exact (proj1 (proj2 (proj2 (pointLights_lit true true)) _ Hin) Hpos).
Defined.

(** ** C8: the instance count *)

(** C8. The five instanced groups (foliage 2200, ribbon 500, baubles 120,
    gifts 35, medallions 35) total 2890 instances, at least 2000. *)
Theorem totalInstances_thousands :
  map count morphingSystems = [2200; 500; 120; 35; 35]%nat /\
  totalInstances = 2890%nat /\ (2000 <= totalInstances)%nat.
Proof.
  assert (E : totalInstances = 2890%nat) by reflexivity.
  split; [reflexivity |]; split; [exact E |].
  rewrite E; lia.
Qed.

(** ** C5: the spin button *)

Section SpinButtonProperties.

Variable AppState : Type.
Variable rotationSpeed : AppState -> R.
Variable setRotationSpeed : R -> AppState -> AppState.

(** The prop shows the value last set. *)
Hypothesis rotationSpeed_set :
  forall v st, rotationSpeed (setRotationSpeed v st) = v.

Lemma spin_onClick_positive (st : AppState) :
  0 < rotationSpeed st ->
  rotationSpeed (Overlay.spin_onClick _ rotationSpeed setRotationSpeed st)
  = 0.
Proof.
  intros H; unfold Overlay.spin_onClick.
  rewrite rotationSpeed_set.
  destruct (Rlt_dec 0 (rotationSpeed st)); [reflexivity | contradiction].
Qed.

Lemma spin_onClick_stopped (st : AppState) :
  ~ 0 < rotationSpeed st ->
  rotationSpeed (Overlay.spin_onClick _ rotationSpeed setRotationSpeed st)
  = 0.5.
Proof.
  intros H; unfold Overlay.spin_onClick.
  rewrite rotationSpeed_set.
  destruct (Rlt_dec 0 (rotationSpeed st)); [contradiction | reflexivity].
Qed.

(** C5. A click on the spin button sets the speed to 0 when it is
    strictly positive and to 0.5 otherwise; from a speed of 0 or 0.5,
    two clicks restore the speed. *)
Theorem spin_onClick_toggle (st : AppState) :
  (0 < rotationSpeed st ->
   rotationSpeed (Overlay.spin_onClick _ rotationSpeed setRotationSpeed st)
   = 0) /\
  (~ 0 < rotationSpeed st ->
   rotationSpeed (Overlay.spin_onClick _ rotationSpeed setRotationSpeed st)
   = 0.5) /\
  (rotationSpeed st = 0 \/ rotationSpeed st = 0.5 ->
   rotationSpeed
     (Overlay.spin_onClick _ rotationSpeed setRotationSpeed
        (Overlay.spin_onClick _ rotationSpeed setRotationSpeed st))
   = rotationSpeed st).
Proof.
  split; [apply spin_onClick_positive |].
  split; [apply spin_onClick_stopped |].
  intros [E | E]; rewrite E.
  - rewrite spin_onClick_positive; [reflexivity |].
    rewrite spin_onClick_stopped; lra.
  - rewrite spin_onClick_stopped; [reflexivity |].
    rewrite spin_onClick_positive; lra.
Qed.

End SpinButtonProperties.

(** A parent that keeps the speed alone as its state. *)
Lemma spin_onClick_toggle_witness :
  (forall v st : R, (fun s : R => s) ((fun (v' : R) (_ : R) => v') v st) = v) /\
  Overlay.spin_onClick R (fun s => s) (fun v _ => v)
    (Overlay.spin_onClick R (fun s => s) (fun v _ => v) 0.5) = 0.5.
Proof.
  assert (H : forall v st : R,
             (fun s : R => s) ((fun (v' : R) (_ : R) => v') v st) = v)
    by (intros v st; reflexivity).
  split; [exact H |].
  exact (proj2 (proj2 (spin_onClick_toggle R (fun s => s) (fun v _ => v)
                                           H 0.5))
               (or_intror eq_refl)).
Defined.

(** ** C9: the eased per-particle parameter *)

Lemma smoothT_bounds (t speed : R) : 0 <= smoothT t speed <= 1.
Proof. unfold smoothT; apply smoothstep_bounds, particleT_bounds. Qed.

Lemma particleT_monotone_low (speed t1 t2 : R) :
  0 <= speed -> t1 <= t2 -> t2 <= 0.5 ->
  particleT t1 speed <= particleT t2 speed.
Proof.
  intros Hs H12 H2; unfold particleT.
  destruct (Rlt_dec 0.5 t1) as [A | _]; [lra |].
  destruct (Rlt_dec 0.5 t2) as [B | _]; [lra |].
  apply clamp_monotone; nra.
Qed.

Lemma particleT_monotone_high (speed t1 t2 : R) :
  0 <= speed -> 0.5 < t1 -> t1 <= t2 ->
  particleT t1 speed <= particleT t2 speed.
Proof.
  intros Hs H1 H12; unfold particleT.
  destruct (Rlt_dec 0.5 t1) as [_ | A]; [| lra].
  destruct (Rlt_dec 0.5 t2) as [_ | B]; [| lra].
  apply clamp_monotone; nra.
Qed.

Lemma smoothT_monotone_of_particleT (speed t1 t2 : R) :
  particleT t1 speed <= particleT t2 speed ->
  smoothT t1 speed <= smoothT t2 speed.
Proof.
  intros H; unfold smoothT.
  apply smoothstep_monotone;
    [apply particleT_bounds | exact H | apply particleT_bounds].
Qed.

(** C9. For every morph factor [t] in [0, 1] and every speed, the eased
    parameter [smoothT] is in [0, 1]; for a fixed speed in [0.5, 1] it is
    non-decreasing in [t] on [0, 0.5] and on (0.5, 1]. *)
Theorem smoothT_unit_and_monotone :
  (forall t speed : R, 0 <= t <= 1 -> 0 <= smoothT t speed <= 1) /\
  (forall speed t1 t2 : R,
     0.5 <= speed <= 1 -> 0 <= t1 -> t1 <= t2 -> t2 <= 0.5 ->
     smoothT t1 speed <= smoothT t2 speed) /\
  (forall speed t1 t2 : R,
     0.5 <= speed <= 1 -> 0.5 < t1 -> t1 <= t2 -> t2 <= 1 ->
     smoothT t1 speed <= smoothT t2 speed).
Proof.
  split; [intros t speed _; apply smoothT_bounds |].
  split; intros speed t1 t2 Hs Ha Hb Hc;
    apply smoothT_monotone_of_particleT.
  - apply particleT_monotone_low; lra.
  - apply particleT_monotone_high; lra.
Qed.

Lemma smoothT_unit_and_monotone_witness :
  (0 <= 0.75 <= 1 /\ 0 <= smoothT 0.75 0.5 <= 1) /\
  (0.5 <= 0.5 <= 1 /\ 0 <= 0.25 /\ 0.25 <= 0.5 /\ 0.5 <= 0.5 /\
   smoothT 0.25 0.5 <= smoothT 0.5 0.5) /\
  (0.5 <= 1 <= 1 /\ 0.5 < 0.75 /\ 0.75 <= 1 /\ 1 <= 1 /\
   smoothT 0.75 1 <= smoothT 1 1).
Proof.
  destruct smoothT_unit_and_monotone as (Hb & Hlo & Hhi).
  split; [| split].
  - assert (H : 0 <= 0.75 <= 1) by lra.
    split; [exact H | exact (Hb 0.75 0.5 H)].
  - assert (A : 0.5 <= 0.5 <= 1) by lra.
    assert (B : 0 <= 0.25) by lra.
    assert (C : 0.25 <= 0.5) by lra.
    assert (D : 0.5 <= 0.5) by lra.
    repeat (split; [assumption |]).
    exact (Hlo 0.5 0.25 0.5 A B C D).
  - assert (A : 0.5 <= 1 <= 1) by lra.
    assert (B : 0.5 < 0.75) by lra.
    assert (C : 0.75 <= 1) by lra.
    assert (D : 1 <= 1) by lra.
    repeat (split; [assumption |]).
    exact (Hhi 1 0.75 1 A B C D).
Defined.

(** ** C6: the generated arrays *)

Lemma length_store {A} (l : list A) (i : nat) (v : A) :
  length (store l i v) = length l.
Proof.
  revert i; induction l as [| a l IH]; intros [| i]; cbn; congruence.
Qed.

Lemma load_store_same (l : list R) (i : nat) (v : R) :
  (i < length l)%nat -> load (store l i v) i = v.
Proof.
  unfold load; revert i; induction l as [| a l IH]; intros [| i] H;
    cbn in *; try lia; [reflexivity | apply IH; lia].
Qed.

Lemma load_store_other (l : list R) (i j : nat) (v : R) :
  i <> j -> load (store l i v) j = load l j.
Proof.
  unfold load; revert i j; induction l as [| a l IH]; intros [| i] [| j] H;
    cbn; try reflexivity; try congruence.
  apply IH; congruence.
Qed.

Lemma load_beyond (l : list R) (j : nat) :
  (length l <= j)%nat -> load l j = 0.
Proof. intros H; unfold load; apply nth_overflow; exact H. Qed.

Lemma length_store3 (l : list R) (i : nat) (x y z : R) :
  length (store3 l i x y z) = length l.
Proof. unfold store3; rewrite !length_store; reflexivity. Qed.

Lemma length_Float32Array (n : nat) : length (Float32Array n) = n.
Proof. apply repeat_length. Qed.

Lemma shaped_allocate (count : nat) : shaped count (allocate count).
Proof.
  unfold shaped, allocate; cbn; rewrite !length_Float32Array; tauto.
Qed.

Lemma shaped_write_row (count i : nat) (r : Row) (d : Data) :
  shaped count d -> shaped count (write_row i r d).
Proof.
  unfold shaped, write_row; cbn.
  rewrite !length_store3, !length_store; tauto.
Qed.

(** A turn of the loop draws its row, then stores it. *)
Lemma generate_body_row (gen : nat -> Rand Placement) (bs : R)
  (i : nat) (d : Data) (draws : Draws) (k : nat) :
  generate_body gen bs i d draws k
  = (write_row i (fst (generate_row gen bs i draws k)) d,
     snd (generate_row gen bs i draws k)).
Proof.
  unfold generate_body, generate_row, bind, Math_random, ret.
  destruct (gen i draws k) as [pos k1].
  destruct (rotation pos) as [rot |]; reflexivity.
Qed.

Lemma generate_loop_step (gen : nat -> Rand Placement) (bs : R)
  (n i : nat) (d : Data) (draws : Draws) (k : nat) :
  generate_loop gen bs (S n) i d draws k
  = generate_loop gen bs n (S i)
      (write_row i (fst (generate_row gen bs i draws k)) d)
      draws (snd (generate_row gen bs i draws k)).
Proof.
  cbn [generate_loop]; unfold bind.
  rewrite generate_body_row; reflexivity.
Qed.

Lemma generate_loop_shaped (gen : nat -> Rand Placement) (bs : R)
  (count n : nat) :
  forall (i : nat) (d : Data) (draws : Draws) (k : nat),
    shaped count d ->
    shaped count (fst (generate_loop gen bs n i d draws k)).
Proof.
  induction n as [| n IH]; intros i d draws k Hd.
  - exact Hd.
  - rewrite generate_loop_step; apply IH, shaped_write_row, Hd.
Qed.

Lemma agree_store (k : nat) (l l' : list R) (v : R) :
  agree k l l' -> agree (S k) (store l k v) (store l' k v).
Proof.
  intros [Hlen Hlow]; split.
  - rewrite !length_store; exact Hlen.
  - intros j Hj.
    destruct (Nat.eq_dec k j) as [<- | Hne].
    + destruct (Nat.lt_ge_cases k (length l)) as [Hin | Hout].
      * rewrite !load_store_same by lia; reflexivity.
      * rewrite !load_beyond by (rewrite length_store; lia); reflexivity.
    + rewrite !load_store_other by exact Hne.
      apply Hlow; lia.
Qed.

Lemma agree_store3 (i : nat) (l l' : list R) (x y z : R) :
  agree (i * 3) l l' ->
  agree (S i * 3) (store3 l i x y z) (store3 l' i x y z).
Proof.
  intros H; unfold store3.
  replace (S i * 3)%nat with (S (i * 3 + 2)) by lia.
  apply agree_store.
  replace (i * 3 + 2)%nat with (S (i * 3 + 1)) by lia.
  apply agree_store.
  replace (i * 3 + 1)%nat with (S (i * 3)) by lia.
  apply agree_store, H.
Qed.

Lemma agree_write_row (i : nat) (r : Row) (d d' : Data) :
  agree_data i d d' -> agree_data (S i) (write_row i r d) (write_row i r d').
Proof.
  intros (Ht & Hs & Hsc & Hsp & Hph & Hr).
  unfold agree_data, write_row; cbn.
  repeat split; first [apply agree_store3 | apply agree_store]; assumption.
Qed.

Lemma generate_loop_agree (gen : nat -> Rand Placement) (bs : R) (n : nat) :
  forall (i : nat) (d d' : Data) (draws : Draws) (k : nat),
    agree_data i d d' ->
    agree_data (i + n) (fst (generate_loop gen bs n i d draws k))
                       (fst (generate_loop gen bs n i d' draws k)).
Proof.
  induction n as [| n IH]; intros i d d' draws k H.
  - rewrite Nat.add_0_r; exact H.
  - rewrite !generate_loop_step.
    replace (i + S n)%nat with (S i + n)%nat by lia.
    apply IH, agree_write_row, H.
Qed.

Lemma agree_full (l l' : list R) :
  agree (length l) l l' -> l = l'.
Proof.
  intros [Hlen Hlow].
  apply (nth_ext l l' 0 0 Hlen); exact Hlow.
Qed.

Lemma agree_data_full (count : nat) (d d' : Data) :
  shaped count d -> agree_data count d d' -> d = d'.
Proof.
  intros (Lt & Ls & Lsc & Lsp & Lph & Lr) (Ht & Hs & Hsc & Hsp & Hph & Hr).
  rewrite <- Lt in Ht; rewrite <- Ls in Hs; rewrite <- Lr in Hr.
  rewrite <- Lsc in Hsc at 1; rewrite <- Lsp in Hsp at 1;
    rewrite <- Lph in Hph at 1.
  destruct d, d'; cbn in *.
  f_equal; apply agree_full; assumption.
Qed.

Lemma agree_data_start (count : nat) (d d' : Data) :
  shaped count d -> shaped count d' -> agree_data 0 d d'.
Proof.
  intros (Lt & Ls & Lsc & Lsp & Lph & Lr) (Lt' & Ls' & Lsc' & Lsp' & Lph' & Lr').
  unfold agree_data, agree; cbn.
  repeat split; try congruence; intros j Hj; lia.
Qed.

(** C6. For every particle count the arrays built by [MorphingSystem]
    have the lengths [count] (scales, speeds, phases) and [3 * count]
    (tree positions, scatter positions, tree rotations), and the
    generation loop writes every slot: started on arrays of these lengths
    with any content, it ends with the same arrays. *)
Theorem data_lengths_and_fill
  (generatePositions : nat -> Rand Placement) (baseScale : R)
  (count : nat) (draws : Draws) (k : nat) (d0 : Data) :
  shaped count d0 ->
  let d := run (data generatePositions baseScale count) draws k in
  (length (scales d) = count /\
   length (speeds d) = count /\
   length (phases d) = count /\
   length (treePositions d) = (3 * count)%nat /\
   length (scatterPositions d) = (3 * count)%nat /\
   length (treeRotations d) = (3 * count)%nat) /\
  run (generate_into generatePositions baseScale count d0) draws k = d.
Proof.
  intros H0; cbv zeta; unfold run, data, generate_into.
  pose proof (generate_loop_shaped generatePositions baseScale count count
                0 (allocate count) draws k (shaped_allocate count)) as Hs.
  split.
  - destruct Hs as (Lt & Ls & Lsc & Lsp & Lph & Lr).
    rewrite Lt, Ls, Lr, Nat.mul_comm; tauto.
  - symmetry; apply (agree_data_full count); [exact Hs |].
    apply (generate_loop_agree generatePositions baseScale count 0).
    apply (agree_data_start count); [apply shaped_allocate | exact H0].
Qed.

Lemma data_lengths_and_fill_witness :
  shaped 2 stale_arrays /\
  run (generate_into generateRibbon 1 2 stale_arrays) zero_draws 0
  = run (data generateRibbon 1 2) zero_draws 0.
Proof.
  assert (H : shaped 2 stale_arrays) by (repeat split; reflexivity).
  split; [exact H |].
  exact (proj2 (data_lengths_and_fill generateRibbon 1 2 zero_draws 0
                                      stale_arrays H)).
Defined.

(** ** What the arrays hold for a particle *)

Lemma load_store3_other (l : list R) (i j : nat) (x y z : R) :
  (j < i * 3 \/ i * 3 + 3 <= j)%nat ->
  load (store3 l i x y z) j = load l j.
Proof.
  intros H; unfold store3.
  rewrite !load_store_other by lia; reflexivity.
Qed.

Lemma load_store3_same (l : list R) (i : nat) (x y z : R) :
  (i * 3 + 2 < length l)%nat ->
  load (store3 l i x y z) (i * 3) = x /\
  load (store3 l i x y z) (i * 3 + 1) = y /\
  load (store3 l i x y z) (i * 3 + 2) = z.
Proof.
  intros H; unfold store3; repeat split.
  - rewrite !load_store_other by lia.
    apply load_store_same; lia.
  - rewrite load_store_other by lia.
    apply load_store_same; rewrite length_store; lia.
  - apply load_store_same; rewrite !length_store; lia.
Qed.

Lemma particle_write_row_other (i j : nat) (r : Row) (d : Data) :
  i <> j -> particle (write_row i r d) j = particle d j.
Proof.
  intros H.
  unfold particle, treePosition, scatterPosition, write_row;
    cbn [treePositions scatterPositions scales speeds phases treeRotations].
  rewrite !load_store3_other by lia.
  rewrite !load_store_other by exact H.
  reflexivity.
Qed.

Lemma particle_write_row_same (count i : nat) (r : Row) (d : Data) :
  shaped count d -> (i < count)%nat -> particle (write_row i r d) i = r.
Proof.
  intros (Lt & Ls & Lsc & Lsp & Lph & Lr) Hi.
  unfold particle, treePosition, scatterPosition, write_row;
    cbn [treePositions scatterPositions scales speeds phases treeRotations].
  destruct (load_store3_same (treePositions d) i (vx (row_tree r))
              (vy (row_tree r)) (vz (row_tree r)) ltac:(lia))
    as (-> & -> & ->).
  destruct (load_store3_same (scatterPositions d) i (vx (row_scatter r))
              (vy (row_scatter r)) (vz (row_scatter r)) ltac:(lia))
    as (-> & -> & ->).
  destruct (load_store3_same (treeRotations d) i (ex (row_rotation r))
              (ey (row_rotation r)) (ez (row_rotation r)) ltac:(lia))
    as (-> & -> & ->).
  rewrite !load_store_same by lia.
  destruct r as [[] [] [] ? ? ?]; reflexivity.
Qed.

(** Later turns leave the particles below the loop index alone. *)
Lemma generate_loop_keeps (gen : nat -> Rand Placement) (bs : R) (n : nat) :
  forall (i : nat) (d : Data) (draws : Draws) (k j : nat),
    (j < i)%nat ->
    particle (fst (generate_loop gen bs n i d draws k)) j = particle d j.
Proof.
  induction n as [| n IH]; intros i d draws k j Hj.
  - reflexivity.
  - rewrite generate_loop_step, IH by lia.
    apply particle_write_row_other; lia.
Qed.

(** The first turn of a loop decides its particle. *)
Lemma generate_loop_first (gen : nat -> Rand Placement) (bs : R)
  (count n i : nat) (d : Data) (draws : Draws) (k : nat) :
  shaped count d -> (i < count)%nat ->
  particle (fst (generate_loop gen bs (S n) i d draws k)) i
  = fst (generate_row gen bs i draws k).
Proof.
  intros Hd Hi.
  rewrite generate_loop_step, generate_loop_keeps by lia.
  apply (particle_write_row_same count); assumption.
Qed.

(** The speed computed for a particle is in [0.5, 1). *)
Lemma generate_row_speed (gen : nat -> Rand Placement) (bs : R)
  (i : nat) (draws : Draws) (k : nat) :
  unit_draws draws ->
  0.5 <= row_speed (run (generate_row gen bs i) draws k) < 1.
Proof.
  intros Hd; unfold run, generate_row, bind, Math_random, ret.
  destruct (gen i draws k) as [pos k1].
  destruct (rotation pos) as [rot |]; cbn [fst row_speed].
  - pose proof (Hd k1); lra.
  - pose proof (Hd (S (S (S k1)))); lra.
Qed.

(** ** C7 and C10: placement on the cone *)

Lemma Math_pow_unit (x y : R) :
  0 <= x < 1 -> 0 < y -> 0 <= Math_pow x y < 1.
Proof.
  intros [H0 H1] Hy; unfold Math_pow.
  destruct (Rle_dec x 0) as [_ | Hx]; [lra |].
  assert (Hpos : 0 < x) by lra.
  unfold Rpower; split.
  - left; apply exp_pos.
  - rewrite <- exp_0; apply exp_increasing.
    assert (Hln : ln x < 0) by (rewrite <- ln_1; apply ln_increasing; lra).
    nra.
Qed.

(** A point at angle [a] and radius [r >= 0] around the axis is at
    distance [r] from it. *)
Lemma axisDistance_polar (a r y : R) :
  0 <= r -> axisDistance (mkVector3 (cos a * r) y (sin a * r)) = r.
Proof.
  intros Hr; unfold axisDistance; cbn [vx vz].
  replace (cos a * r * (cos a * r) + sin a * r * (sin a * r))
    with (r * r * (Rsqr (sin a) + Rsqr (cos a)))
    by (unfold Rsqr; ring).
  rewrite sin2_cos2, Rmult_1_r.
  apply sqrt_square; exact Hr.
Qed.

(** C7. Whatever the draws in [0, 1), the tree position generated for a
    foliage particle has its height in [-TREE_HEIGHT/2, TREE_HEIGHT/2],
    that is [-4.75, 4.75], and its distance from the axis between 0.95
    and 1.0 times the cone's radius at that height. *)
Theorem generateFoliage_on_shell (draws : Draws) :
  unit_draws draws ->
  forall i k : nat, on_shell (tree (run (generateFoliage i) draws k)).
Proof.
  intros Hd i k.
  unfold on_shell, run, generateFoliage, bind, Math_random, ret;
    cbn [fst tree].
  pose proof (Math_pow_unit (draws k) 0.8 (Hd k) ltac:(lra)) as Hlevel.
  pose proof (Hd (S k)) as Hu1.
  set (level := Math_pow (draws k) 0.8) in *.
  set (u1 := draws (S k)) in *.
  rewrite axisDistance_polar;
    unfold coneRadiusAt, TREE_HEIGHT, TREE_RADIUS; cbn [vy]; nra.
Qed.

Lemma Math_pow_sample : Math_pow (1 / 32) 0.8 = 1 / 16.
Proof.
  unfold Math_pow.
  destruct (Rle_dec (1 / 32) 0) as [H | _]; [lra |].
  unfold Rpower.
  replace (1 / 32) with ((1 / 2) ^ 5) by (simpl; lra).
  rewrite ln_pow by lra.
  replace (0.8 * (INR 5 * ln (1 / 2))) with (INR 4 * ln (1 / 2))
    by (simpl; lra).
  rewrite <- ln_pow by lra.
  rewrite exp_ln by (simpl; lra).
  simpl; lra.
Qed.

(** With every draw at 1/32 the foliage point is below the tip, where
    the cone's radius is 0.2375. *)
Lemma foliage_sample_radius :
  vy (tree (run (generateFoliage 0) low_draws 0)) = 4.15625 /\
  coneRadiusAt (vy (tree (run (generateFoliage 0) low_draws 0))) = 0.2375.
Proof.
  unfold run, generateFoliage, bind, Math_random, ret, low_draws;
    cbn [fst tree vy].
  rewrite Math_pow_sample.
  unfold coneRadiusAt, TREE_HEIGHT, TREE_RADIUS; split; lra.
Qed.

Lemma generateFoliage_on_shell_witness :
  unit_draws low_draws /\
  on_shell (tree (run (generateFoliage 0) low_draws 0)) /\
  coneRadiusAt (vy (tree (run (generateFoliage 0) low_draws 0))) = 0.2375.
Proof.
  assert (H : unit_draws low_draws) by (intros k; unfold low_draws; lra).
  split; [exact H |].
  split; [exact (generateFoliage_on_shell low_draws H 0%nat 0%nat) |].
  exact (proj2 foliage_sample_radius).
Defined.

Lemma spiral_yNorm_unit (i total : nat) :
  (i < total)%nat -> (2 <= total)%nat -> 0 <= spiral_yNorm i total <= 1.
Proof.
  intros Hi Ht; unfold spiral_yNorm.
  assert (Hden : 0 < INR total - 1).
  { apply le_INR in Ht; simpl in Ht; lra. }
  assert (Hnum : INR i <= INR total - 1).
  { assert (Hle : (i <= total - 1)%nat) by lia.
    apply le_INR in Hle; rewrite minus_INR in Hle by lia.
    simpl in Hle; lra. }
  pose proof (pos_INR i) as Hi0.
  assert (Hq0 : 0 <= INR i / (INR total - 1)).
  { apply Rmult_le_pos; [exact Hi0 | left; apply Rinv_0_lt_compat, Hden]. }
  assert (Hq1 : INR i / (INR total - 1) <= 1).
  { apply (Rmult_le_reg_r (INR total - 1)); [exact Hden |].
    unfold Rdiv; rewrite Rmult_assoc, Rinv_l by lra; lra. }
  lra.
Qed.

(** C10. For an ornament index [i < total] with [total >= 2],
    [getSpiralPos] returns a tree position whose height is in the band
    [0.1 * TREE_HEIGHT - TREE_HEIGHT/2, 0.95 * TREE_HEIGHT - TREE_HEIGHT/2],
    with [yClamped] in [0.1, 0.95], whose distance from the axis is
    [TREE_RADIUS * (1 - yClamped) + 0.3], and a rotation [(0, -theta, 0)]. *)
Theorem getSpiralPos_on_band
  (i total : nat) (offsetAngle : R) (draws : Draws) (k : nat) :
  (i < total)%nat -> (2 <= total)%nat ->
  let p := run (getSpiralPos i total offsetAngle) draws k in
  let yClamped := spiral_yClamped i total in
  0.1 <= yClamped <= 0.95 /\
  vy (sp_tree p) = yClamped * TREE_HEIGHT - TREE_HEIGHT / 2 /\
  0.1 * TREE_HEIGHT - TREE_HEIGHT / 2 <= vy (sp_tree p)
    <= 0.95 * TREE_HEIGHT - TREE_HEIGHT / 2 /\
  axisDistance (sp_tree p) = TREE_RADIUS * (1 - yClamped) + 0.3 /\
  sp_rotation p = mkEuler 0 (- spiral_theta i offsetAngle) 0.
Proof.
  intros Hi Ht; cbv zeta.
  unfold run, getSpiralPos, bind, Math_random, ret;
    cbn [fst sp_tree sp_rotation vy].
  pose proof (spiral_yNorm_unit i total Hi Ht) as Hy.
  assert (Hc : 0.1 <= spiral_yClamped i total <= 0.95)
    by (unfold spiral_yClamped; lra).
  split; [exact Hc |].
  split; [reflexivity |].
  split; [unfold TREE_HEIGHT; lra |].
  split; [| reflexivity].
  apply axisDistance_polar; unfold TREE_RADIUS; lra.
Qed.

Lemma getSpiralPos_on_band_witness :
  ((3 < 120)%nat /\ (2 <= 120)%nat) /\
  axisDistance (sp_tree (run (getSpiralPos 3 120 0) zero_draws 0))
  = TREE_RADIUS * (1 - spiral_yClamped 3 120) + 0.3.
Proof.
  assert (Hi : (3 < 120)%nat) by lia.
  assert (Ht : (2 <= 120)%nat) by lia.
  split; [split; assumption |].
  exact (proj1 (proj2 (proj2 (proj2
           (getSpiralPos_on_band 3 120 0 zero_draws 0 Hi Ht))))).
Defined.

(** ** C1: the assembled end state *)

Lemma smoothT_assembled_fast (speed : R) :
  0.9 <= speed -> smoothT 1 speed = 1.
Proof.
  intros H; unfold smoothT.
  rewrite particleT_at_1, clamp_above by lra; ring.
Qed.

Lemma smoothT_assembled_slow (speed : R) :
  speed < 0.9 -> smoothT 1 speed < 1.
Proof.
  intros H; unfold smoothT; rewrite particleT_at_1.
  pose proof (clamp_bounds (speed + 0.1) 0 1 ltac:(lra)) as [Hlo _].
  assert (Hhi : clamp (speed + 0.1) 0 1 < 1).
  { destruct (Rle_dec (speed + 0.1) 0) as [Hneg | Hpos].
    - rewrite clamp_below by lra; lra.
    - rewrite clamp_inside by lra; lra. }
  set (p := clamp (speed + 0.1) 0 1) in *.
  assert (E : 1 - p * p * (3 - 2 * p) = (1 - p) * (1 - p) * (1 + 2 * p))
    by ring.
  assert (0 < (1 - p) * (1 - p) * (1 + 2 * p)).
  { apply Rmult_lt_0_compat; [apply Rmult_lt_0_compat; lra | lra]. }
  lra.
Qed.

(** A particle whose speed is at least 0.9 is on the tree at factor 1. *)
Lemma basePosition_assembled_fast (d : Data) (i : nat) :
  0.9 <= load (speeds d) i -> basePosition d 1 i = treePosition d i.
Proof.
  intros H; unfold basePosition, treePosition.
  rewrite smoothT_assembled_fast, !lerp_at_1 by exact H.
  reflexivity.
Qed.

Lemma lerp_short (x y s : R) : s < 1 -> lerp x y s = y -> x = y.
Proof. unfold lerp; intros Hs E; nra. Qed.

(** A particle whose speed is below 0.9 is not, unless its two end
    states are the same point. *)
Lemma basePosition_assembled_slow (d : Data) (i : nat) :
  load (speeds d) i < 0.9 ->
  scatterPosition d i <> treePosition d i ->
  basePosition d 1 i <> treePosition d i.
Proof.
  intros H Hne E; apply Hne.
  apply smoothT_assembled_slow in H.
  unfold basePosition, treePosition in E; unfold scatterPosition, treePosition.
  injection E as Ex Ey Ez.
  apply (lerp_short _ _ _ H) in Ex, Ey, Ez.
  rewrite Ex, Ey, Ez; reflexivity.
Qed.

Lemma generateRibbon_first_row :
  run (generate_row generateRibbon 1 0) zero_draws 0
  = mkRow (mkVector3 0.4 4.75 0) (mkVector3 8 (- 2.5) 0) (mkEuler 0 0 0)
          0.15 0.5 0.
Proof.
  unfold run, generate_row, generateRibbon, bind, Math_random, ret, zero_draws.
  cbn [fst rotation tree scatter scale INR].
  rewrite !Rdiv_0_l, !Rmult_0_l, !Rmult_0_r, cos_0, sin_0.
  unfold TREE_HEIGHT, TREE_RADIUS.
  f_equal; try (f_equal; lra); lra.
Qed.

Lemma ribbon_data_first :
  particle ribbon_data 0
  = mkRow (mkVector3 0.4 4.75 0) (mkVector3 8 (- 2.5) 0) (mkEuler 0 0 0)
          0.15 0.5 0.
Proof.
  rewrite <- generateRibbon_first_row.
  unfold ribbon_data, run at 1, data, generate_into, RIBBON_PARTICLE_COUNT.
  apply (generate_loop_first generateRibbon 1 500 499 0);
    [apply shaped_allocate | lia].
Qed.

Lemma smoothT_1_half : smoothT 1 0.5 = 0.648.
Proof.
  unfold smoothT; rewrite particleT_at_1, clamp_inside by lra; lra.
Qed.

(** With the factor at 1, an ornament (fixed-orientation group) whose
    speed is 0.5 still turns with time: its orientation is not the stored
    tree rotation. *)
Lemma ornament_rotation_drifts (d : Data) (spinSpeed : R) (i : nat) :
  load (speeds d) i = 0.5 ->
  ex (orientation (instanceTransform d spinSpeed false 1 2 i))
  - ex (orientation (instanceTransform d spinSpeed false 1 0 i)) = 0.352.
Proof.
  intros E; unfold instanceTransform; cbn [orientation ex].
  rewrite E, smoothT_1_half; unfold lerp; lra.
Qed.

Lemma basePosition_assembled_half_speed (d : Data) (i : nat) :
  particle d i
  = mkRow (mkVector3 0.4 4.75 0) (mkVector3 8 (- 2.5) 0) (mkEuler 0 0 0)
          0.15 0.5 0 ->
  load (speeds d) i = 0.5 /\
  treePosition d i = mkVector3 0.4 4.75 0 /\
  scatterPosition d i = mkVector3 8 (- 2.5) 0 /\
  basePosition d 1 i = mkVector3 3.0752 2.198 0 /\
  basePosition d 1 i <> treePosition d i.
Proof.
  intros E.
  assert (Esp : load (speeds d) i = 0.5)
    by exact (f_equal row_speed E).
  assert (Et : treePosition d i = mkVector3 0.4 4.75 0)
    by exact (f_equal row_tree E).
  assert (Es : scatterPosition d i = mkVector3 8 (- 2.5) 0)
    by exact (f_equal row_scatter E).
  assert (Eb : basePosition d 1 i = mkVector3 3.0752 2.198 0).
  { unfold treePosition in Et; injection Et as Etx Ety Etz.
    unfold scatterPosition in Es; injection Es as Esx Esy Esz.
    unfold basePosition.
    rewrite Esp, smoothT_1_half, Etx, Ety, Etz, Esx, Esy, Esz.
    unfold lerp; f_equal; lra. }
  repeat (split; [assumption |]).
  rewrite Eb, Et; intros H; injection H as Hx _; lra.
Qed.

(** C1 fails on the code.  In the ribbon group as the scene creates it
    (500 particles), with every draw equal to 0, particle 0 has speed 0.5,
    tree position (0.4, 4.75, 0) and scatter position (8, -2.5, 0); at
    morph factor 1 its base position is (3.0752, 2.198, 0), not its tree
    position. *)
Theorem basePosition_assembled_ribbon_first :
  load (speeds ribbon_data) 0 = 0.5 /\
  treePosition ribbon_data 0 = mkVector3 0.4 4.75 0 /\
  scatterPosition ribbon_data 0 = mkVector3 8 (- 2.5) 0 /\
  basePosition ribbon_data 1 0 = mkVector3 3.0752 2.198 0 /\
  basePosition ribbon_data 1 0 <> treePosition ribbon_data 0.
Proof.
  exact (basePosition_assembled_half_speed ribbon_data 0 ribbon_data_first).
Qed.

(** * Further properties of the frame update *)

(** ** The eased parameter *)

Lemma particleT_monotone (speed t1 t2 : R) :
  0 <= speed -> t1 <= t2 -> particleT t1 speed <= particleT t2 speed.
Proof.
  intros Hs H12; unfold particleT.
  apply clamp_monotone.
  destruct (Rlt_dec 0.5 t1) as [A | A], (Rlt_dec 0.5 t2) as [B | B];
    try nra.
Qed.

(** X1. For a speed that is not negative, [smoothT] is non-decreasing in
    the morph factor over all factors, also across 0.5 where the offset
    switches sign, and outside [0, 1]. *)
Theorem smoothT_monotone (speed t1 t2 : R) :
  0 <= speed -> t1 <= t2 -> smoothT t1 speed <= smoothT t2 speed.
Proof.
  intros Hs H12.
  apply smoothT_monotone_of_particleT, particleT_monotone; assumption.
Qed.

Lemma smoothT_monotone_witness :
  (0 <= 0.5 /\ 0.4 <= 0.6) /\ smoothT 0.4 0.5 <= smoothT 0.6 0.5.
Proof.
  assert (Hs : 0 <= 0.5) by lra.
  assert (Ht : 0.4 <= 0.6) by lra.
  split; [split; assumption |].
  exact (smoothT_monotone 0.5 0.4 0.6 Hs Ht).
Defined.

(** ** Where an instance is drawn *)

Lemma lerp_between (x y s : R) :
  0 <= s <= 1 -> Rmin x y <= lerp x y s <= Rmax x y.
Proof.
  intros [H0 H1]; unfold lerp.
  destruct (Rle_dec x y) as [Hxy | Hxy].
  - rewrite Rmin_left, Rmax_right by lra; nra.
  - rewrite Rmin_right, Rmax_left by lra; nra.
Qed.

(** X2. For every morph factor, in or out of [0, 1], and every stored
    speed, each coordinate of a particle's base position lies between the
    same coordinate of its scatter position and of its tree position. *)
Theorem basePosition_between (d : Data) (t : R) (i : nat) :
  let b := basePosition d t i in
  let s := scatterPosition d i in
  let p := treePosition d i in
  Rmin (vx s) (vx p) <= vx b <= Rmax (vx s) (vx p) /\
  Rmin (vy s) (vy p) <= vy b <= Rmax (vy s) (vy p) /\
  Rmin (vz s) (vz p) <= vz b <= Rmax (vz s) (vz p).
Proof.
  cbv zeta; unfold basePosition, scatterPosition, treePosition;
    cbn [vx vy vz].
  pose proof (smoothT_bounds t (load (speeds d) i)) as Hs.
  repeat split; apply lerp_between; exact Hs.
Qed.

Lemma hoverAmp_bounds (s : R) : 0 <= s <= 1 -> 0.02 <= lerp 0.5 0.02 s <= 0.5.
Proof. intros [H0 H1]; unfold lerp; lra. Qed.

(** X3. The hover moves an instance only vertically, by at most the
    hover amplitude, which is between 0.02 and 0.5: the drawn position
    has the base position's [x] and [z], and its [y] is within 0.5 of the
    base position's. *)
Theorem instanceTransform_hover
  (d : Data) (spinSpeed : R) (randomizeRotation : bool)
  (t time : R) (i : nat) :
  let T := instanceTransform d spinSpeed randomizeRotation t time i in
  let b := basePosition d t i in
  let hoverAmp := lerp 0.5 0.02 (smoothT t (load (speeds d) i)) in
  vx (position T) = vx b /\
  vz (position T) = vz b /\
  0.02 <= hoverAmp <= 0.5 /\
  Rabs (vy (position T) - vy b) <= hoverAmp.
Proof.
  cbv zeta; unfold instanceTransform; cbn [position vx vy vz].
  pose proof (hoverAmp_bounds _ (smoothT_bounds t (load (speeds d) i)))
    as Hh.
  split; [reflexivity |]; split; [reflexivity |]; split; [exact Hh |].
  pose proof (SIN_bound (time + load (phases d) i)) as [Hlo Hhi].
  apply Rabs_le; nra.
Qed.

(** X4. The scale pulse keeps the drawn scale within five percent of the
    stored scale, when that scale is not negative. *)
Theorem instanceTransform_scale
  (d : Data) (spinSpeed : R) (randomizeRotation : bool)
  (t time : R) (i : nat) :
  0 <= load (scales d) i ->
  0.95 * load (scales d) i
  <= scalar (instanceTransform d spinSpeed randomizeRotation t time i)
  <= 1.05 * load (scales d) i.
Proof.
  intros Hs; unfold instanceTransform; cbn [scalar].
  pose proof (SIN_bound (time * 2 + load (phases d) i)) as [Hlo Hhi].
  nra.
Qed.

Lemma instanceTransform_scale_witness :
  0 <= load (scales one_particle_data) 0 /\
  0.95 * load (scales one_particle_data) 0
  <= scalar (instanceTransform one_particle_data 1 true 0.5 3 0)
  <= 1.05 * load (scales one_particle_data) 0.
Proof.
  assert (H : 0 <= load (scales one_particle_data) 0)
    by (unfold load; cbn [scales one_particle_data nth]; lra).
  split; [exact H |].
  exact (instanceTransform_scale one_particle_data 1 true 0.5 3 0 H).
Defined.

(** ** The instance loop *)

Lemma store_app {A} (pre rest : list A) (a v : A) :
  store (pre ++ a :: rest) (length pre) v = pre ++ v :: rest.
Proof.
  induction pre as [| b pre IH]; cbn; [reflexivity | rewrite IH; reflexivity].
Qed.

Lemma instance_loop_map
  (d : Data) (spinSpeed : R) (randomizeRotation : bool) (t time : R)
  (n : nat) :
  forall (pre rest : list Transform),
    length rest = n ->
    instance_loop d spinSpeed randomizeRotation t time n (length pre)
                  (pre ++ rest)
    = pre ++ map (instanceTransform d spinSpeed randomizeRotation t time)
                 (seq (length pre) n).
Proof.
  induction n as [| n IH]; intros pre rest Hlen.
  - destruct rest; [reflexivity | discriminate].
  - destruct rest as [| a rest]; [discriminate |].
    cbn [instance_loop seq map].
    rewrite store_app.
    replace (pre ++ instanceTransform d spinSpeed randomizeRotation t time
                                      (length pre) :: rest)
      with ((pre ++ [instanceTransform d spinSpeed randomizeRotation t time
                                       (length pre)]) ++ rest)
      by (rewrite <- app_assoc; reflexivity).
    replace (S (length pre))
      with (length (pre ++ [instanceTransform d spinSpeed randomizeRotation
                                              t time (length pre)]))
      by (rewrite length_app; cbn; lia).
    rewrite IH by (injection Hlen; auto).
    rewrite <- app_assoc; reflexivity.
Qed.

(** X5. On a mounted mesh with [count] instances, a frame replaces every
    instance: instance [i] becomes the transform of particle [i] computed
    with the factor as updated in this frame, whatever the mesh held. *)
Theorem useFrame_instances
  (count : nat) (d : Data) (isAssembled : bool) (spinSpeed : R)
  (randomizeRotation : bool) (time delta : R) (st : FrameState)
  (mesh : list Transform) :
  meshRef st = Some mesh -> length mesh = count ->
  let st' := useFrame count d isAssembled spinSpeed randomizeRotation
                      time delta st in
  factor st' = lerp (factor st) (morphTarget isAssembled) (delta * 1.5) /\
  meshRef st'
  = Some (map (instanceTransform d spinSpeed randomizeRotation
                                 (factor st') time)
              (seq 0 count)).
Proof.
  intros Hm Hlen; cbv zeta; unfold useFrame; rewrite Hm; cbn [factor meshRef].
  split; [reflexivity |]; f_equal.
  exact (instance_loop_map d spinSpeed randomizeRotation _ time count
                           [] mesh Hlen).
Qed.

Lemma useFrame_instances_witness :
  (meshRef one_instance_frame
   = Some [mkTransform (mkVector3 0 0 0) (mkEuler 0 0 0) 1] /\
   List.length [mkTransform (mkVector3 0 0 0) (mkEuler 0 0 0) 1] = 1%nat) /\
  meshRef (useFrame 1 one_particle_data true 1 false 2 0.5
                    one_instance_frame)
  = Some (map (instanceTransform one_particle_data 1 false
                 (factor (useFrame 1 one_particle_data true 1 false 2 0.5
                                   one_instance_frame)) 2)
              (seq 0 1)).
Proof.
  assert (Hm : meshRef one_instance_frame
               = Some [mkTransform (mkVector3 0 0 0) (mkEuler 0 0 0) 1])
    by reflexivity.
  assert (Hl : List.length [mkTransform (mkVector3 0 0 0) (mkEuler 0 0 0) 1]
               = 1%nat) by reflexivity.
  split; [split; assumption |].
  exact (proj2 (useFrame_instances 1 one_particle_data true 1 false 2 0.5
                                   one_instance_frame _ Hm Hl)).
Defined.

(** ** The assembled end state *)

(** X6. At morph factor 1 a particle whose end states differ is drawn from
    its tree position exactly when its speed is at least 0.9. *)
Theorem basePosition_assembled_iff (d : Data) (i : nat) :
  scatterPosition d i <> treePosition d i ->
  (basePosition d 1 i = treePosition d i <-> 0.9 <= load (speeds d) i).
Proof.
  intros Hne; split.
  - intros E.
    destruct (Rle_dec 0.9 (load (speeds d) i)) as [H | H]; [exact H |].
    exfalso.
    apply (basePosition_assembled_slow d i); [lra | exact Hne | exact E].
  - apply basePosition_assembled_fast.
Qed.

Lemma basePosition_assembled_iff_witness :
  scatterPosition one_particle_data 0 <> treePosition one_particle_data 0 /\
  basePosition one_particle_data 1 0 = treePosition one_particle_data 0.
Proof.
  assert (Hne : scatterPosition one_particle_data 0
                <> treePosition one_particle_data 0).
  { unfold scatterPosition, treePosition, load;
      cbn [scatterPositions treePositions one_particle_data Nat.mul Nat.add
           nth].
    intros E; injection E as Ex; lra. }
  split; [exact Hne |].
  apply (proj2 (basePosition_assembled_iff one_particle_data 0 Hne)).
  unfold load; cbn [speeds one_particle_data nth]; lra.
Defined.

(** X7. At morph factor 1 an instance of a fixed-orientation group whose
    speed is at least 0.9 has the stored tree rotation, at every time. *)
Theorem instanceTransform_assembled_rotation
  (d : Data) (spinSpeed time : R) (i : nat) :
  0.9 <= load (speeds d) i ->
  orientation (instanceTransform d spinSpeed false 1 time i)
  = mkEuler (load (treeRotations d) (i * 3))
            (load (treeRotations d) (i * 3 + 1))
            (load (treeRotations d) (i * 3 + 2)).
Proof.
  intros H; unfold instanceTransform; cbn [orientation].
  rewrite smoothT_assembled_fast, !lerp_at_1 by exact H.
  reflexivity.
Qed.

Lemma instanceTransform_assembled_rotation_witness :
  0.9 <= load (speeds one_particle_data) 0 /\
  orientation (instanceTransform one_particle_data 1 false 1 7 0)
  = mkEuler (load (treeRotations one_particle_data) (0 * 3))
            (load (treeRotations one_particle_data) (0 * 3 + 1))
            (load (treeRotations one_particle_data) (0 * 3 + 2)).
Proof.
  assert (H : 0.9 <= load (speeds one_particle_data) 0)
    by (unfold load; cbn [speeds one_particle_data nth]; lra).
  split; [exact H |].
  exact (instanceTransform_assembled_rotation one_particle_data 1 7 0 H).
Defined.

(** ** The morph factor over a run of frames *)

Lemma useFrame_mounted
  (count : nat) (d : Data) (isAssembled : bool) (spinSpeed : R)
  (randomizeRotation : bool) (time delta : R) (st : FrameState) :
  meshRef st <> None ->
  meshRef (useFrame count d isAssembled spinSpeed randomizeRotation
                    time delta st) <> None /\
  factor (useFrame count d isAssembled spinSpeed randomizeRotation
                   time delta st)
  = lerp (factor st) (morphTarget isAssembled) (delta * 1.5).
Proof.
  intros Hm; unfold useFrame.
  destruct (meshRef st) as [mesh |]; [| contradiction].
  cbn [meshRef factor]; split; [discriminate | reflexivity].
Qed.

(** X8. Over any run of frames whose frame times are between 0 and 2/3
    of a second, the morph factor stays in [0, 1] and ends no farther
    from its target than it started. *)
Theorem useFrames_factor_in_unit_interval
  (count : nat) (d : Data) (isAssembled : bool) (spinSpeed : R)
  (randomizeRotation : bool) (frames : list (R * R)) (st : FrameState) :
  Forall (fun f => 0 <= snd f /\ snd f * 1.5 <= 1) frames ->
  0 <= factor st <= 1 ->
  let st' := useFrames count d isAssembled spinSpeed randomizeRotation
                       frames st in
  0 <= factor st' <= 1 /\
  Rabs (factor st' - morphTarget isAssembled)
  <= Rabs (factor st - morphTarget isAssembled).
Proof.
  intros Hf; revert st; cbv zeta.
  induction Hf as [| [time delta] frames [Hd0 Hd1] _ IH]; intros st Hst.
  - split; [exact Hst | apply Rle_refl].
  - cbn [useFrames]; cbn [snd] in Hd0, Hd1.
    assert (Hstep :
      0 <= factor (useFrame count d isAssembled spinSpeed randomizeRotation
                            time delta st) <= 1 /\
      Rabs (factor (useFrame count d isAssembled spinSpeed randomizeRotation
                             time delta st) - morphTarget isAssembled)
      <= Rabs (factor st - morphTarget isAssembled)).
    { unfold useFrame.
      destruct (meshRef st) as [mesh |]; cbn [factor].
      - apply lerp_factor_step; [lra | exact Hst |].
        destruct isAssembled; [right | left]; reflexivity.
      - split; [exact Hst | apply Rle_refl]. }
    destruct Hstep as [Hin Hdist].
    destruct (IH _ Hin) as [Hin' Hdist'].
    split; [exact Hin' | lra].
Qed.

Lemma useFrames_factor_in_unit_interval_witness :
  (Forall (fun f : R * R => 0 <= snd f /\ snd f * 1.5 <= 1)
          [(0, 0.5); (0.5, 0.25)] /\
   0 <= factor one_instance_frame <= 1) /\
  0 <= factor (useFrames 1 one_particle_data true 1 true
                         [(0, 0.5); (0.5, 0.25)] one_instance_frame) <= 1.
Proof.
  assert (Hf : Forall (fun f : R * R => 0 <= snd f /\ snd f * 1.5 <= 1)
                      [(0, 0.5); (0.5, 0.25)]).
  { repeat constructor; cbn [snd]; lra. }
  assert (Hs : 0 <= factor one_instance_frame <= 1)
    by (cbn [factor one_instance_frame]; lra).
  split; [split; assumption |].
  exact (proj1 (useFrames_factor_in_unit_interval 1 one_particle_data true 1
                  true [(0, 0.5); (0.5, 0.25)] one_instance_frame Hf Hs)).
Defined.

(** X9. On a mounted mesh, after [n] frames of one frame time [delta]
    the factor's signed distance to its target is the starting one times
    [(1 - delta * 1.5) ^ n]. *)
Theorem useFrames_factor_geometric
  (count : nat) (d : Data) (isAssembled : bool) (spinSpeed : R)
  (randomizeRotation : bool) (delta : R) (times : list R)
  (st : FrameState) :
  meshRef st <> None ->
  factor (useFrames count d isAssembled spinSpeed randomizeRotation
                    (map (fun time => (time, delta)) times) st)
  - morphTarget isAssembled
  = (1 - delta * 1.5) ^ List.length times
    * (factor st - morphTarget isAssembled).
Proof.
  revert st; induction times as [| time times IH]; intros st Hm.
  - cbn; ring.
  - cbn [map useFrames List.length pow].
    destruct (useFrame_mounted count d isAssembled spinSpeed
                randomizeRotation time delta st Hm) as [Hm' Hf].
    rewrite (IH _ Hm'), Hf; unfold lerp; ring.
Qed.

Lemma useFrames_factor_geometric_witness :
  meshRef one_instance_frame <> None /\
  factor (useFrames 1 one_particle_data true 1 true
                    (map (fun time => (time, 0.5)) [0; 0.5; 1])
                    one_instance_frame)
  - morphTarget true
  = (1 - 0.5 * 1.5) ^ 3 * (factor one_instance_frame - morphTarget true).
Proof.
  assert (H : meshRef one_instance_frame <> None) by discriminate.
  split; [exact H |].
  exact (useFrames_factor_geometric 1 one_particle_data true 1 true 0.5
                                    [0; 0.5; 1] one_instance_frame H).
Defined.

(** X10. A frame longer than 2/3 of a second carries the factor past its
    target: on a mounted mesh, with [delta * 1.5 > 1] and the factor off
    its target, the factor ends strictly on the target's other side. *)
Theorem useFrame_overshoot
  (count : nat) (d : Data) (isAssembled : bool) (spinSpeed : R)
  (randomizeRotation : bool) (time delta : R) (st : FrameState) :
  meshRef st <> None -> 1 < delta * 1.5 ->
  factor st <> morphTarget isAssembled ->
  (factor (useFrame count d isAssembled spinSpeed randomizeRotation
                    time delta st) - morphTarget isAssembled)
  * (factor st - morphTarget isAssembled) < 0.
Proof.
  intros Hm Hd Hne.
  destruct (useFrame_mounted count d isAssembled spinSpeed randomizeRotation
              time delta st Hm) as [_ ->].
  set (g := factor st - morphTarget isAssembled).
  assert (Hg : g <> 0) by (unfold g; lra).
  replace (lerp (factor st) (morphTarget isAssembled) (delta * 1.5)
           - morphTarget isAssembled)
    with ((1 - delta * 1.5) * g) by (unfold g, lerp; ring).
  assert (Hsq : 0 < g * g).
  { destruct (Rtotal_order g 0) as [Hlt | [Heq | Hgt]]; [nra | lra | nra]. }
  nra.
Qed.

Lemma useFrame_overshoot_witness :
  (meshRef one_instance_frame <> None /\ 1 < 1 * 1.5 /\
   factor one_instance_frame <> morphTarget true) /\
  (factor (useFrame 1 one_particle_data true 1 true 0 1 one_instance_frame)
   - morphTarget true)
  * (factor one_instance_frame - morphTarget true) < 0.
Proof.
  assert (Hm : meshRef one_instance_frame <> None) by discriminate.
  assert (Hd : 1 < 1 * 1.5) by lra.
  assert (Hne : factor one_instance_frame <> morphTarget true)
    by (cbn [factor one_instance_frame morphTarget]; lra).
  split; [repeat split; assumption |].
  exact (useFrame_overshoot 1 one_particle_data true 1 true 0 1
                            one_instance_frame Hm Hd Hne).
Defined.

(** * Further properties of the generated groups *)

(** ** X11: the ribbon *)

(** X11. Whatever the draws in [0, 1), a ribbon particle [i < 500] has a
    tree position of height in (-4.75, 4.75] at 0.4 outside the cone's
    radius at that height, a scatter position at 8 to 10 from the axis
    with a height within 2.5 of the centre, and a scale in [0.15, 0.25). *)
Theorem generateRibbon_placement (i : nat) (draws : Draws) (k : nat) :
  unit_draws draws -> (i < RIBBON_PARTICLE_COUNT)%nat ->
  let p := run (generateRibbon i) draws k in
  - 4.75 < vy (tree p) <= 4.75 /\
  axisDistance (tree p) = coneRadiusAt (vy (tree p)) + 0.4 /\
  8 <= axisDistance (scatter p) < 10 /\
  - 2.5 <= vy (scatter p) < 2.5 /\
  0.15 <= scale p < 0.25.
Proof.
  intros Hd Hi; cbv zeta.
  unfold run, generateRibbon, bind, Math_random, ret;
    cbn [fst tree scatter scale vy].
  assert (Ht : 0 <= INR i / INR RIBBON_PARTICLE_COUNT < 1).
  { assert (Hn : 0 < INR RIBBON_PARTICLE_COUNT)
      by (apply lt_0_INR; unfold RIBBON_PARTICLE_COUNT; lia).
    pose proof (pos_INR i) as Hi0.
    apply lt_INR in Hi.
    split.
    - apply Rmult_le_pos; [exact Hi0 | left; apply Rinv_0_lt_compat, Hn].
    - apply (Rmult_lt_reg_r (INR RIBBON_PARTICLE_COUNT)); [exact Hn |].
      unfold Rdiv; rewrite Rmult_assoc, Rinv_l by lra; lra. }
  set (t := INR i / INR RIBBON_PARTICLE_COUNT) in *.
  pose proof (Hd (S k)) as H1.
  pose proof (Hd (S (S k))) as H2.
  pose proof (Hd (S (S (S k)))) as H3.
  rewrite !axisDistance_polar by (unfold TREE_RADIUS; nra).
  unfold coneRadiusAt, TREE_HEIGHT, TREE_RADIUS.
  repeat split; try lra; nra.
Qed.

Lemma generateRibbon_placement_witness :
  (unit_draws zero_draws /\ (3 < RIBBON_PARTICLE_COUNT)%nat) /\
  0.15 <= scale (run (generateRibbon 3) zero_draws 0) < 0.25.
Proof.
  assert (Hd : unit_draws zero_draws) by (intros k; unfold zero_draws; lra).
  assert (Hi : (3 < RIBBON_PARTICLE_COUNT)%nat)
    by (unfold RIBBON_PARTICLE_COUNT; lia).
  split; [split; assumption |].
  exact (proj2 (proj2 (proj2 (proj2
           (generateRibbon_placement 3 zero_draws 0 Hd Hi))))).
Defined.

(** ** X12, X13: the ornaments *)

Lemma spiral_tree_outside_cone
  (i total : nat) (offsetAngle : R) (draws : Draws) (k : nat) :
  (i < total)%nat -> (2 <= total)%nat ->
  let p := sp_tree (run (getSpiralPos i total offsetAngle) draws k) in
  0.1 * TREE_HEIGHT - TREE_HEIGHT / 2 <= vy p
    <= 0.95 * TREE_HEIGHT - TREE_HEIGHT / 2 /\
  axisDistance p = coneRadiusAt (vy p) + 0.3.
Proof.
  intros Hi Ht; cbv zeta.
  unfold run, getSpiralPos, bind, Math_random, ret; cbn [fst sp_tree vy].
  pose proof (spiral_yNorm_unit i total Hi Ht) as Hy.
  assert (Hc : 0.1 <= spiral_yClamped i total <= 0.95)
    by (unfold spiral_yClamped; lra).
  set (yc := spiral_yClamped i total) in *.
  rewrite axisDistance_polar by (unfold TREE_RADIUS; lra).
  unfold coneRadiusAt, TREE_HEIGHT, TREE_RADIUS; split; lra.
Qed.

Lemma ornament_tree (j : nat) (draws : Draws) (k : nat) :
  tree (run (generateBaubles j) draws k)
  = sp_tree (run (getSpiralPos j BAUBLE_COUNT 0) draws k) /\
  tree (run (generateGifts j) draws k)
  = sp_tree (run (getSpiralPos j GIFT_COUNT 2.5) draws k) /\
  tree (run (generateCookies j) draws k)
  = sp_tree (run (getSpiralPos j COOKIE_COUNT 4.5) draws k).
Proof. repeat split. Qed.

(** X12. Each ornament generator of the scene (baubles, gifts,
    medallions), for an index below its group's count, returns a tree
    position whose height is in the band
    [0.1 * TREE_HEIGHT - TREE_HEIGHT/2, 0.95 * TREE_HEIGHT - TREE_HEIGHT/2]
    and which lies 0.3 outside the cone's radius at that height. *)
Theorem ornaments_outside_cone
  (g : MorphingSystemProps) (draws : Draws) (k j : nat) :
  In g [baubles; gifts; medallions] -> (j < count g)%nat ->
  let p := tree (run (generatePositions g j) draws k) in
  0.1 * TREE_HEIGHT - TREE_HEIGHT / 2 <= vy p
    <= 0.95 * TREE_HEIGHT - TREE_HEIGHT / 2 /\
  axisDistance p = coneRadiusAt (vy p) + 0.3.
Proof.
  intros Hg Hj; cbv zeta.
  destruct (ornament_tree j draws k) as (Eb & Eg & Ec).
  destruct Hg as [<- | [<- | [<- | []]]];
    cbn [generatePositions count baubles gifts medallions] in *.
  - rewrite Eb; apply spiral_tree_outside_cone;
      [exact Hj | unfold BAUBLE_COUNT; lia].
  - rewrite Eg; apply spiral_tree_outside_cone;
      [exact Hj | unfold GIFT_COUNT; lia].
  - rewrite Ec; apply spiral_tree_outside_cone;
      [exact Hj | unfold COOKIE_COUNT; lia].
Qed.

Lemma ornaments_outside_cone_witness :
  (In gifts [baubles; gifts; medallions] /\ (4 < count gifts)%nat) /\
  axisDistance (tree (run (generatePositions gifts 4) low_draws 0))
  = coneRadiusAt (vy (tree (run (generatePositions gifts 4) low_draws 0)))
    + 0.3.
Proof.
  assert (Hg : In gifts [baubles; gifts; medallions])
    by (right; left; reflexivity).
  assert (Hj : (4 < count gifts)%nat)
    by (cbn [count gifts]; unfold GIFT_COUNT; lia).
  split; [split; assumption |].
  exact (proj2 (ornaments_outside_cone gifts low_draws 0 4 Hg Hj)).
Defined.

Lemma spiral_height (i total : nat) (offsetAngle : R)
  (draws : Draws) (k : nat) :
  vy (sp_tree (run (getSpiralPos i total offsetAngle) draws k))
  = spiral_yClamped i total * TREE_HEIGHT - TREE_HEIGHT / 2.
Proof. reflexivity. Qed.

(** X13. The ornaments of a spiral are laid from the top down: the first
    index is at height [0.95 * TREE_HEIGHT - TREE_HEIGHT/2], the last at
    [0.1 * TREE_HEIGHT - TREE_HEIGHT/2], and a larger index is strictly
    lower. *)
Theorem getSpiralPos_top_down
  (i j total : nat) (offsetAngle : R) (draws : Draws) (k : nat) :
  (i < j)%nat -> (j < total)%nat ->
  let y n := vy (sp_tree (run (getSpiralPos n total offsetAngle) draws k)) in
  y j < y i /\
  y 0%nat = 0.95 * TREE_HEIGHT - TREE_HEIGHT / 2 /\
  y (total - 1)%nat = 0.1 * TREE_HEIGHT - TREE_HEIGHT / 2.
Proof.
  intros Hij Hj; cbv beta zeta; rewrite !spiral_height.
  assert (Hden : 0 < INR total - 1).
  { assert (Ht : (2 <= total)%nat) by lia.
    apply le_INR in Ht; simpl in Ht; lra. }
  unfold spiral_yClamped, spiral_yNorm, TREE_HEIGHT.
  repeat split.
  - apply lt_INR in Hij.
    assert (Hq : INR i / (INR total - 1) < INR j / (INR total - 1)).
    { unfold Rdiv; apply Rmult_lt_compat_r;
        [apply Rinv_0_lt_compat, Hden | exact Hij]. }
    lra.
  - rewrite Rdiv_0_l; lra.
  - rewrite minus_INR by lia; simpl (INR 1).
    unfold Rdiv; rewrite Rinv_r by lra; lra.
Qed.

Lemma getSpiralPos_top_down_witness :
  ((2 < 7)%nat /\ (7 < BAUBLE_COUNT)%nat) /\
  vy (sp_tree (run (getSpiralPos 7 BAUBLE_COUNT 0) zero_draws 0))
  < vy (sp_tree (run (getSpiralPos 2 BAUBLE_COUNT 0) zero_draws 0)).
Proof.
  assert (Hij : (2 < 7)%nat) by lia.
  assert (Hj : (7 < BAUBLE_COUNT)%nat) by (unfold BAUBLE_COUNT; lia).
  split; [split; assumption |].
  exact (proj1 (getSpiralPos_top_down 2 7 BAUBLE_COUNT 0 zero_draws 0
                                      Hij Hj)).
Defined.

(** ** X14, X15: the scattered cloud *)

Lemma norm3_spherical (r phi theta : R) :
  0 <= r ->
  norm3 (mkVector3 (r * sin phi * cos theta) (r * sin phi * sin theta)
                   (r * cos phi)) = r.
Proof.
  intros Hr; unfold norm3; cbn [vx vy vz].
  pose proof (sin2_cos2 phi) as Hp.
  pose proof (sin2_cos2 theta) as Ht.
  unfold Rsqr in Hp, Ht.
  replace (r * sin phi * cos theta * (r * sin phi * cos theta)
           + r * sin phi * sin theta * (r * sin phi * sin theta)
           + r * cos phi * (r * cos phi))
    with (r * r * (sin phi * sin phi
                   * (sin theta * sin theta + cos theta * cos theta)
                   + cos phi * cos phi))
    by ring.
  rewrite Ht, Rmult_1_r, Hp, Rmult_1_r.
  apply sqrt_square; exact Hr.
Qed.

(** X14. Whatever the draws in [0, 1), the scatter position of a foliage
    particle is at a distance of at least 10 and less than 15 from the
    origin. *)
Theorem generateFoliage_scatter_shell (i : nat) (draws : Draws) (k : nat) :
  unit_draws draws ->
  10 <= norm3 (scatter (run (generateFoliage i) draws k)) < 15.
Proof.
  intros Hd.
  unfold run, generateFoliage, bind, Math_random, ret; cbn [fst scatter].
  pose proof (Hd (S (S (S k)))) as H3.
  rewrite norm3_spherical; lra.
Qed.

Lemma generateFoliage_scatter_shell_witness :
  unit_draws zero_draws /\
  10 <= norm3 (scatter (run (generateFoliage 0) zero_draws 0)) < 15.
Proof.
  assert (Hd : unit_draws zero_draws) by (intros k; unfold zero_draws; lra).
  split; [exact Hd |].
  exact (generateFoliage_scatter_shell 0 zero_draws 0 Hd).
Defined.

(** X15. Whatever the draws in [0, 1), the scatter position of an
    ornament has every coordinate in [-7.5, 7.5). *)
Theorem getSpiralPos_scatter_cube
  (i total : nat) (offsetAngle : R) (draws : Draws) (k : nat) :
  unit_draws draws ->
  let s := sp_scatter (run (getSpiralPos i total offsetAngle) draws k) in
  - 7.5 <= vx s < 7.5 /\ - 7.5 <= vy s < 7.5 /\ - 7.5 <= vz s < 7.5.
Proof.
  intros Hd; cbv zeta.
  unfold run, getSpiralPos, bind, Math_random, ret;
    cbn [fst sp_scatter vx vy vz].
  pose proof (Hd k); pose proof (Hd (S k)); pose proof (Hd (S (S k))).
  lra.
Qed.

Lemma getSpiralPos_scatter_cube_witness :
  unit_draws zero_draws /\
  - 7.5 <= vx (sp_scatter (run (getSpiralPos 1 35 2.5) zero_draws 0)) < 7.5.
Proof.
  assert (Hd : unit_draws zero_draws) by (intros k; unfold zero_draws; lra).
  split; [exact Hd |].
  exact (proj1 (getSpiralPos_scatter_cube 1 35 2.5 zero_draws 0 Hd)).
Defined.

(** ** X16: the scales *)




(** ** X17, X18: the rotations *)

Lemma ornament_rotation (j : nat) (draws : Draws) (k : nat) :
  rotation (run (generateBaubles j) draws k)
  = Some (mkEuler 0 (- spiral_theta j 0) 0) /\
  rotation (run (generateCookies j) draws k)
  = Some (mkEuler (PI / 2) (- spiral_theta j 4.5) 0) /\
  rotation (run (generateGifts j) draws k)
  = Some (mkEuler (0 + (draws (S (S (S k))) - 0.5) * 0.5)
                  (- spiral_theta j 2.5)
                  (0 + (draws (S (S (S (S k)))) - 0.5) * 0.5)).
Proof. repeat split. Qed.

(** X17. Every ornament generator returns a rotation, turned by
    [-theta] about the vertical axis, where [theta] is the spiral angle
    of the ornament's index with its group's offset (0, 4.5, 2.5): a
    bauble has [(0, -theta, 0)], a medallion [(PI/2, -theta, 0)], and a
    gift, whatever the draws in [0, 1), tilts in [-0.25, 0.25) about the
    two other axes. *)
Theorem ornament_rotations (draws : Draws) (k j : nat) :
  unit_draws draws ->
  rotation (run (generateBaubles j) draws k)
  = Some (mkEuler 0 (- spiral_theta j 0) 0) /\
  rotation (run (generateCookies j) draws k)
  = Some (mkEuler (PI / 2) (- spiral_theta j 4.5) 0) /\
  exists r,
    rotation (run (generateGifts j) draws k) = Some r /\
    - 0.25 <= ex r < 0.25 /\
    ey r = - spiral_theta j 2.5 /\
    - 0.25 <= ez r < 0.25.
Proof.
  intros Hd.
  destruct (ornament_rotation j draws k) as (Eb & Ec & Eg).
  split; [exact Eb |]; split; [exact Ec |].
  eexists; split; [exact Eg |]; cbn [ex ey ez].
  pose proof (Hd (S (S (S k)))); pose proof (Hd (S (S (S (S k))))).
  repeat split; lra.
Qed.

Lemma ornament_rotations_witness :
  unit_draws low_draws /\
  rotation (run (generateCookies 3) low_draws 0)
  = Some (mkEuler (PI / 2) (- spiral_theta 3 4.5) 0).
Proof.
  assert (Hd : unit_draws low_draws) by (intros k; unfold low_draws; lra).
  split; [exact Hd |].
  exact (proj1 (proj2 (ornament_rotations low_draws 0 3 Hd))).
Defined.

Lemma generate_row_random_rotation (gen : nat -> Rand Placement) (bs : R)
  (i : nat) (draws : Draws) (k : nat) :
  unit_draws draws ->
  rotation (run (gen i) draws k) = None ->
  let r := row_rotation (run (generate_row gen bs i) draws k) in
  0 <= ex r < PI /\ 0 <= ey r < PI /\ 0 <= ez r < PI.
Proof.
  intros Hd; cbv zeta; unfold run, generate_row, bind, Math_random, ret.
  destruct (gen i draws k) as [pos k1]; cbn [fst]; intros ->.
  cbn [fst row_rotation ex ey ez].
  pose proof PI_RGT_0 as Hpi.
  pose proof (Hd k1); pose proof (Hd (S k1)); pose proof (Hd (S (S k1))).
  repeat split; nra.
Qed.

(** X18. Whatever the draws in [0, 1), for the foliage and the ribbon
    of the scene, whose generators return no rotation, the rotation the
    generation loop computes for a particle has each angle in [0, PI). *)
Theorem random_rotation_angles
  (g : MorphingSystemProps) (draws : Draws) (k j : nat) :
  unit_draws draws -> In g [foliage; ribbon] ->
  let r := row_rotation
             (run (generate_row (generatePositions g) (baseScale g) j)
                  draws k) in
  0 <= ex r < PI /\ 0 <= ey r < PI /\ 0 <= ez r < PI.
Proof.
  intros Hd Hg.
  apply (generate_row_random_rotation (generatePositions g) (baseScale g)
                                      j draws k Hd).
  destruct Hg as [<- | [<- | []]]; reflexivity.
Qed.

Lemma random_rotation_angles_witness :
  (unit_draws low_draws /\ In foliage [foliage; ribbon]) /\
  0 <= ex (row_rotation
             (run (generate_row (generatePositions foliage)
                                (baseScale foliage) 2) low_draws 0)) < PI.
Proof.
  assert (Hd : unit_draws low_draws) by (intros k; unfold low_draws; lra).
  assert (Hg : In foliage [foliage; ribbon]) by (left; reflexivity).
  split; [split; [exact Hd | exact Hg] |].
  exact (proj1 (random_rotation_angles foliage low_draws 0 2 Hd Hg)).
Defined.

(** ** X19: the speeds and phases *)

Lemma generate_row_phase (gen : nat -> Rand Placement) (bs : R)
  (i : nat) (draws : Draws) (k : nat) :
  unit_draws draws ->
  0 <= row_phase (run (generate_row gen bs i) draws k) < 2 * PI.
Proof.
  intros Hd; unfold run, generate_row, bind, Math_random, ret.
  destruct (gen i draws k) as [pos k1].
  pose proof PI_RGT_0 as Hpi.
  destruct (rotation pos) as [rot |]; cbn [fst row_phase].
  - pose proof (Hd (S k1)); nra.
  - pose proof (Hd (S (S (S (S k1))))); nra.
Qed.

(** X19. Whatever the generator and the draws in [0, 1), the speed the
    generation loop computes for a particle is in [0.5, 1) and the phase
    in [0, 2 PI). *)
Theorem row_speed_phase (gen : nat -> Rand Placement) (bs : R)
  (i : nat) (draws : Draws) (k : nat) :
  unit_draws draws ->
  let r := run (generate_row gen bs i) draws k in
  0.5 <= row_speed r < 1 /\ 0 <= row_phase r < 2 * PI.
Proof.
  intros Hd; cbv zeta; split;
    [apply generate_row_speed, Hd | apply generate_row_phase, Hd].
Qed.

Lemma row_speed_phase_witness :
  unit_draws low_draws /\
  0.5 <= row_speed (run (generate_row generateRibbon 1 1) low_draws 0) < 1.
Proof.
  assert (Hd : unit_draws low_draws) by (intros k; unfold low_draws; lra).
  split; [exact Hd |].
  exact (proj1 (row_speed_phase generateRibbon 1 1 low_draws 0 Hd)).
Defined.

(** * The star *)

(** ** X20, X21: the outline *)

Lemma star_angle_shift (a : R) :
  cos (a + PI / 2) = - sin a /\ sin (a + PI / 2) = cos a.
Proof.
  rewrite cos_plus, sin_plus, cos_PI2, sin_PI2; split; ring.
Qed.

Lemma star_turns : INR (Star.points * 2) = 10.
Proof.
  unfold Star.points; change (5 * 2)%nat with 10%nat.
  rewrite (INR_IZR_INZ 10); reflexivity.
Qed.

Lemma star_vertex_eq (i : nat) :
  Star.vertex i
  = (let r := if Nat.eqb (i mod 2) 0 then 0.8 else 0.4 in
     (- sin (INR i / 10 * PI * 2) * r, cos (INR i / 10 * PI * 2) * r)).
Proof.
  unfold Star.vertex, Star.outerRadius, Star.innerRadius; cbv zeta.
  rewrite star_turns.
  destruct (star_angle_shift (INR i / 10 * PI * 2)) as [-> ->].
  reflexivity.
Qed.

(** X20. The star's outline is a closed path of ten vertices, the first
    reached by a move and the others by lines; the first vertex is the
    top point (0, 0.8), and the vertices are at distance 0.8 from the
    centre at even turns and 0.4 at odd turns. *)
Theorem star_outline :
  Star.shape
  = [Star.MoveTo (fst (Star.vertex 0)) (snd (Star.vertex 0))]
    ++ map (fun i => Star.LineTo (fst (Star.vertex i)) (snd (Star.vertex i)))
           (seq 1 9)
    ++ [Star.ClosePath] /\
  Star.vertex 0 = (0, 0.8) /\
  (forall i,
     sqrt (fst (Star.vertex i) * fst (Star.vertex i)
           + snd (Star.vertex i) * snd (Star.vertex i))
     = if Nat.even i then 0.8 else 0.4).
Proof.
  split; [| split].
  - unfold Star.shape, Star.points.
    change (5 * 2)%nat with 10%nat.
    cbn [Star.outline_loop seq map app Nat.eqb].
    repeat (destruct (Star.vertex _) as [? ?]; cbn [fst snd app]).
    reflexivity.
  - rewrite star_vertex_eq; cbv zeta.
    change (0 mod 2)%nat with 0%nat; cbn [Nat.eqb INR].
    rewrite Rdiv_0_l, !Rmult_0_l, sin_0, cos_0.
    f_equal; lra.
  - intros i; rewrite star_vertex_eq; cbv zeta; cbn [fst snd].
    assert (Hpar : Nat.eqb (i mod 2) 0 = Nat.even i).
    { rewrite <- Nat.bit0_mod, Nat.bit0_odd, <- Nat.negb_even.
      destruct (Nat.even i); reflexivity. }
    rewrite Hpar.
    set (a := INR i / 10 * PI * 2).
    set (r := if Nat.even i then 0.8 else 0.4).
    assert (Hr : 0 <= r) by (unfold r; destruct (Nat.even i); lra).
    replace (- sin a * r * (- sin a * r) + cos a * r * (cos a * r))
      with (r * r * (Rsqr (sin a) + Rsqr (cos a)))
      by (unfold Rsqr; ring).
    rewrite sin2_cos2, Rmult_1_r.
    apply sqrt_square; exact Hr.
Qed.

Lemma star_parity (i : nat) :
  (i <= 10)%nat -> ((10 - i) mod 2 =? 0)%nat = (i mod 2 =? 0)%nat.
Proof.
  intros H.
  do 11 (destruct i as [| i]; [reflexivity |]); lia.
Qed.

(** X21. The star's outline is symmetric about its vertical axis: the
    vertex of turn [10 - i] is the mirror image of the vertex of turn
    [i]. *)
Theorem star_mirror (i : nat) :
  (i <= Star.points * 2)%nat ->
  Star.vertex (Star.points * 2 - i)
  = (- fst (Star.vertex i), snd (Star.vertex i)).
Proof.
  unfold Star.points; change (5 * 2)%nat with 10%nat; intros Hi.
  rewrite !star_vertex_eq; cbv zeta; cbn [fst snd].
  rewrite (star_parity i Hi), minus_INR by exact Hi.
  replace (INR 10) with 10 by (rewrite (INR_IZR_INZ 10); reflexivity).
  set (a := INR i / 10 * PI * 2).
  replace ((10 - INR i) / 10 * PI * 2) with (2 * PI - a)
    by (unfold a; field).
  rewrite sin_minus, cos_minus, sin_2PI, cos_2PI.
  f_equal; ring.
Qed.

Lemma star_mirror_witness :
  (3 <= Star.points * 2)%nat /\
  Star.vertex (Star.points * 2 - 3)
  = (- fst (Star.vertex 3), snd (Star.vertex 3)).
Proof.
  assert (H : (3 <= Star.points * 2)%nat) by (unfold Star.points; lia).
  split; [exact H |].
  exact (star_mirror 3 H).
Defined.

(** ** X22, X23: the star's animation *)

Lemma animateStar_step (isAssembled : bool) (t : R) (star : Transform) :
  let alpha := if isAssembled then 0.05 else 0.02 in
  let height := if isAssembled then TREE_HEIGHT / 2 + 0.4 else 10 in
  let star' := animateStar isAssembled t star in
  vx (position star') = (1 - alpha) * vx (position star) /\
  vy (position star') - height
  = (1 - alpha) * (vy (position star) - height) /\
  vz (position star') = (1 - alpha) * vz (position star) /\
  orientation star'
  = mkEuler (ex (orientation star)) (ey (orientation star) + 0.01)
            (ez (orientation star)).
Proof.
  cbv zeta; unfold animateStar, Vector3_lerp;
    cbn [position orientation vx vy vz].
  destruct isAssembled; unfold starTargetPos, starScatterPos;
    cbn [vx vy vz]; repeat split; ring.
Qed.

(** X22. After [n] frames the star's distance from the axis and its
    signed height above its resting height (0.4 above the tree's tip when
    assembled, 10 when scattered) are the starting ones times
    [(1 - alpha) ^ n], with [alpha] 0.05 when assembled and 0.02 when
    scattered, and it has turned by [0.01 * n] about the vertical axis. *)
Theorem animateStarFrames_closed_form
  (isAssembled : bool) (times : list R) (star : Transform) :
  let n := List.length times in
  let alpha := if isAssembled then 0.05 else 0.02 in
  let height := if isAssembled then TREE_HEIGHT / 2 + 0.4 else 10 in
  let star' := animateStarFrames isAssembled times star in
  vx (position star') = (1 - alpha) ^ n * vx (position star) /\
  vy (position star') - height
  = (1 - alpha) ^ n * (vy (position star) - height) /\
  vz (position star') = (1 - alpha) ^ n * vz (position star) /\
  ex (orientation star') = ex (orientation star) /\
  ey (orientation star') = ey (orientation star) + 0.01 * INR n /\
  ez (orientation star') = ez (orientation star).
Proof.
  cbv zeta; revert star; induction times as [| t times IH]; intros star.
  - cbn [animateStarFrames List.length pow INR]; repeat split; ring.
  - cbn [animateStarFrames List.length pow].
    destruct (IH (animateStar isAssembled t star))
      as (Hx & Hy & Hz & Hex & Hey & Hez).
    destruct (animateStar_step isAssembled t star) as (Sx & Sy & Sz & So).
    cbv zeta in Sx, Sy, Sz, So.
    rewrite Hx, Hy, Hz, Hex, Hey, Hez, Sx, Sy, Sz, So, S_INR;
      cbn [ex ey ez]; repeat split; ring.
Qed.

(** X23. On every frame the star's scale is set between 0.9 and 1.1, and
    a star on the tree's axis stays on it. *)
Theorem animateStar_scale_axis
  (isAssembled : bool) (t : R) (star : Transform) :
  0.9 <= scalar (animateStar isAssembled t star) <= 1.1 /\
  (vx (position star) = 0 -> vz (position star) = 0 ->
   vx (position (animateStar isAssembled t star)) = 0 /\
   vz (position (animateStar isAssembled t star)) = 0).
Proof.
  split.
  - unfold animateStar; cbn [scalar].
    pose proof (SIN_bound (t * 3)) as [Hlo Hhi]; lra.
  - intros Hx Hz.
    destruct (animateStar_step isAssembled t star) as (Sx & _ & Sz & _).
    cbv zeta in Sx, Sz; rewrite Sx, Sz, Hx, Hz; split; ring.
Qed.

Lemma animateStar_scale_axis_witness :
  (vx (position (mkTransform (mkVector3 0 3 0) (mkEuler 0 0 0) 1)) = 0 /\
   vz (position (mkTransform (mkVector3 0 3 0) (mkEuler 0 0 0) 1)) = 0) /\
  vx (position (animateStar true 2
                  (mkTransform (mkVector3 0 3 0) (mkEuler 0 0 0) 1))) = 0.
Proof.
  assert (Hx : vx (position (mkTransform (mkVector3 0 3 0) (mkEuler 0 0 0)
                                         1)) = 0) by reflexivity.
  assert (Hz : vz (position (mkTransform (mkVector3 0 3 0) (mkEuler 0 0 0)
                                         1)) = 0) by reflexivity.
  split; [split; assumption |].
  exact (proj1 (proj2 (animateStar_scale_axis true 2
                         (mkTransform (mkVector3 0 3 0) (mkEuler 0 0 0) 1))
                      Hx Hz)).
Defined.

(** ** X24: the text's animation *)

(** X24. One frame brings the text's height to within 0.95 times its
    former distance from its resting height (2 above the tree's tip when
    assembled, 15 when scattered) plus a float of at most 0.005, so a
    text within 0.1 of that height stays within 0.1; its distance from
    the axis shrinks by 0.95, its scale is kept, and it is turned to the
    camera from its position before the float is added. *)
Theorem animateText_step
  (lookAt : Vector3 -> Vector3 -> Euler) (isAssembled : bool) (t : R)
  (camera : Vector3) (text : Transform) :
  let height := if isAssembled then TREE_HEIGHT / 2 + 2 else 15 in
  let text' := animateText lookAt isAssembled t camera text in
  Rabs (vy (position text') - height)
  <= 0.95 * Rabs (vy (position text) - height) + 0.005 /\
  (Rabs (vy (position text) - height) <= 0.1 ->
   Rabs (vy (position text') - height) <= 0.1) /\
  vx (position text') = 0.95 * vx (position text) /\
  vz (position text') = 0.95 * vz (position text) /\
  scalar text' = scalar text /\
  orientation text'
  = lookAt (mkVector3 (vx (position text'))
                      (vy (position text') - sin (t * 2) * 0.005)
                      (vz (position text')))
           camera.
Proof.
  cbv zeta.
  set (height := if isAssembled then TREE_HEIGHT / 2 + 2 else 15).
  assert (Hy : vy (position (animateText lookAt isAssembled t camera text))
               - height
               = 0.95 * (vy (position text) - height)
                 + sin (t * 2) * 0.005).
  { unfold animateText, Vector3_lerp, height;
      cbn [position vx vy vz].
    destruct isAssembled; unfold textTargetPos, textScatterPos;
      cbn [vy]; lra. }
  pose proof (SIN_bound (t * 2)) as [Hlo Hhi].
  assert (Hstep :
    Rabs (vy (position (animateText lookAt isAssembled t camera text))
          - height)
    <= 0.95 * Rabs (vy (position text) - height) + 0.005).
  { rewrite Hy.
    eapply Rle_trans; [apply Rabs_triang |].
    rewrite Rabs_mult, (Rabs_pos_eq 0.95) by lra.
    assert (Rabs (sin (t * 2) * 0.005) <= 0.005) by (apply Rabs_le; lra).
    lra. }
  split; [exact Hstep |].
  split; [intros Hnear; lra |].
  unfold animateText, Vector3_lerp; cbn [position orientation scalar vx vy vz].
  split; [destruct isAssembled; cbn [vx textTargetPos textScatterPos]; lra |].
  split; [destruct isAssembled; cbn [vz textTargetPos textScatterPos]; lra |].
  split; [reflexivity |].
  f_equal; f_equal; lra.
Qed.

Lemma animateText_step_witness :
  Rabs (vy (position (mkTransform (mkVector3 0 6.8 0) (mkEuler 0 0 0) 1))
        - (TREE_HEIGHT / 2 + 2)) <= 0.1 /\
  Rabs (vy (position
              (animateText (fun _ _ => mkEuler 0 0 0) true 1
                 (mkVector3 0 0 12)
                 (mkTransform (mkVector3 0 6.8 0) (mkEuler 0 0 0) 1)))
        - (TREE_HEIGHT / 2 + 2)) <= 0.1.
Proof.
  assert (H : Rabs (vy (position (mkTransform (mkVector3 0 6.8 0)
                                              (mkEuler 0 0 0) 1))
                    - (TREE_HEIGHT / 2 + 2)) <= 0.1).
  { cbn [position vy]; unfold TREE_HEIGHT; apply Rabs_le; lra. }
  split; [exact H |].
  exact (proj1 (proj2 (animateText_step (fun _ _ => mkEuler 0 0 0) true 1
                         (mkVector3 0 0 12)
                         (mkTransform (mkVector3 0 6.8 0) (mkEuler 0 0 0) 1)))
               H).
Defined.

(** * The overlay *)

(** ** X25: the spin button's state *)

Section SpinButtonStyling.

Variable AppState : Type.
Variable rotationSpeed : AppState -> R.
Variable setRotationSpeed : R -> AppState -> AppState.

Hypothesis rotationSpeed_stored :
  forall v st, rotationSpeed (setRotationSpeed v st) = v.

Lemma spin_onClick_speed (st : AppState) :
  rotationSpeed (Overlay.spin_onClick _ rotationSpeed setRotationSpeed st)
  = if Rlt_dec 0 (rotationSpeed st) then 0 else 0.5.
Proof. unfold Overlay.spin_onClick; apply rotationSpeed_stored. Qed.

(** X25. For every speed, also a negative one or one that no click sets:
    a click on the spin button leaves the speed at 0 or 0.5 and flips the
    button between its highlighted and its idle style, and a third click
    gives what the first gave. *)
Theorem spin_onClick_flips (st : AppState) :
  let click := Overlay.spin_onClick _ rotationSpeed setRotationSpeed in
  (rotationSpeed (click st) = 0 \/ rotationSpeed (click st) = 0.5) /\
  (0 < rotationSpeed (click st) <-> ~ 0 < rotationSpeed st) /\
  OverlayView.spin_className (rotationSpeed (click st))
  <> OverlayView.spin_className (rotationSpeed st) /\
  rotationSpeed (click (click (click st))) = rotationSpeed (click st).
Proof.
  cbv zeta.
  rewrite !spin_onClick_speed.
  unfold OverlayView.spin_className.
  destruct (Rlt_dec 0 (rotationSpeed st)) as [Hpos | Hneg].
  - destruct (Rlt_dec 0 0) as [H | _]; [lra |].
    destruct (Rlt_dec 0 0.5) as [_ | H]; [| lra].
    destruct (Rlt_dec 0 0) as [H | _]; [lra |].
    repeat split; try (left; reflexivity); try lra; try tauto.
    discriminate.
  - destruct (Rlt_dec 0 0.5) as [_ | H]; [| lra].
    destruct (Rlt_dec 0 0) as [H | _]; [lra |].
    destruct (Rlt_dec 0 0.5) as [_ | H]; [| lra].
    repeat split; try (right; reflexivity); try lra; try tauto.
    discriminate.
Qed.

End SpinButtonStyling.

Lemma spin_onClick_flips_witness :
  (forall v st : R, (fun s : R => s) ((fun (v' : R) (_ : R) => v') v st) = v) /\
  OverlayView.spin_className
    (Overlay.spin_onClick R (fun s => s) (fun v _ => v) (- 2))
  <> OverlayView.spin_className (- 2).
Proof.
  assert (H : forall v st : R,
             (fun s : R => s) ((fun (v' : R) (_ : R) => v') v st) = v)
    by (intros v st; reflexivity).
  split; [exact H |].
  exact (proj1 (proj2 (proj2 (spin_onClick_flips R (fun s => s)
                                (fun v _ => v) H (- 2))))).
Defined.
